(** * badgin: favicon selection, badge text and session state

    A shallow embedding of [src/favicon.ts].  The document head is a list of
    element nodes carrying an identity and an attribute map, the module-level
    variables ([canvas], [context], [current]) and the one [Options] object
    form an explicit state, and every exported function is a state
    transformer returning its result.

    Conventions of the embedding:
    - a JavaScript string is a [string] holding the UTF-8 encoding of its
      text; [JS.units] gives its UTF-16 code units, which [length] counts
      and [parseInt] reads;
    - a JavaScript number that is an integer is a [Z]; the result of
      [parseInt] is the integer value of the double it returns, with
      [2 ^ 1024] standing for [Infinity], and [NaN] is [None];
    - [null] is [None]. *)

From Stdlib Require Import ZArith Lia Ascii String DecimalString.
From Stdlib Require DecimalPos.
From stdpp Require Import base option list gmap strings.

Local Open Scope string_scope.
Local Open Scope list_scope.
Local Open Scope Z_scope.

(** ** JavaScript primitives used by the module *)

Module JS.

(** [!!s] for [s : string | null]: [null] and the empty string are falsy. *)
Definition truthy (o : option string) : bool :=
  match o with
  | Some s => negb (String.eqb s "")
  | None => false
  end.

(** [s.split(sep)] for a separator of one character. *)
Fixpoint split (sep : ascii) (s : string) : list string :=
  match s with
  | EmptyString => [EmptyString]
  | String c s' =>
      if Ascii.eqb c sep then EmptyString :: split sep s'
      else match split sep s' with
           | t :: ts => String c t :: ts
           | [] => [String c EmptyString]
           end
  end.

Fixpoint indexOf_from (x : string) (l : list string) (i : Z) : Z :=
  match l with
  | [] => -1
  | y :: l' => if String.eqb y x then i else indexOf_from x l' (i + 1)
  end.

(** [l.indexOf(x)]: the first index holding [x], or [-1]. *)
Definition indexOf (x : string) (l : list string) : Z := indexOf_from x l 0.

(** [a[0]] of an array of strings; [undefined] never arises for the result
    of [split], which is not empty. *)
Definition first (l : list string) : string := hd EmptyString l.

(** *** Code units

    The code units of a string: the UTF-16 code units of the text whose
    UTF-8 encoding the bytes are.  A byte that does not open a well-formed
    sequence stands for the code unit of its own value. *)

Definition continuation (b : N) : bool := ((128 <=? b) && (b <? 192))%N.

Definition surrogates (cp : N) : list N :=
  let v := (cp - 65536)%N in
  [(55296 + v / 1024)%N; (56320 + v mod 1024)%N].

Fixpoint units (s : string) : list N :=
  match s with
  | EmptyString => []
  | String c1 r1 =>
      let b1 := N_of_ascii c1 in
      if (b1 <? 128)%N then b1 :: units r1
      else
        match r1 with
        | String c2 r2 =>
            let b2 := N_of_ascii c2 in
            if ((192 <=? b1) && (b1 <? 224) && continuation b2)%N
            then ((b1 - 192) * 64 + (b2 - 128))%N :: units r2
            else
              match r2 with
              | String c3 r3 =>
                  let b3 := N_of_ascii c3 in
                  if ((224 <=? b1) && (b1 <? 240)
                      && continuation b2 && continuation b3)%N
                  then ((b1 - 224) * 4096 + (b2 - 128) * 64 + (b3 - 128))%N
                       :: units r3
                  else
                    match r3 with
                    | String c4 r4 =>
                        let b4 := N_of_ascii c4 in
                        if ((240 <=? b1) && (b1 <? 248) && continuation b2
                            && continuation b3 && continuation b4)%N
                        then surrogates ((b1 - 240) * 262144 + (b2 - 128) * 4096
                                         + (b3 - 128) * 64 + (b4 - 128))%N
                             ++ units r4
                        else b1 :: units r1
                    | EmptyString => b1 :: units r1
                    end
              | EmptyString => b1 :: units r1
              end
        | EmptyString => [b1]
        end
  end.

(** [s.length]: the number of code units. *)
Definition length (s : string) : nat := List.length (units s).

(** *** [parseInt] *)

(** The code units [parseInt] skips at the start: the ECMAScript white space
    (TAB, VT, FF, SP, NBSP, U+FEFF and the space separators U+1680,
    U+2000..U+200A, U+202F, U+205F, U+3000) and line terminators (LF, CR,
    U+2028, U+2029). *)
Definition isWhiteSpace (u : N) : bool :=
  ((9 <=? u) && (u <=? 13) || (u =? 32) || (u =? 160) || (u =? 5760)
   || (8192 <=? u) && (u <=? 8202) || (u =? 8232) || (u =? 8233)
   || (u =? 8239) || (u =? 8287) || (u =? 12288) || (u =? 65279))%N.

Fixpoint trimStart (s : list N) : list N :=
  match s with
  | u :: s' => if isWhiteSpace u then trimStart s' else s
  | [] => []
  end.

Definition digitValue (u : N) : option Z :=
  if ((48 <=? u) && (u <=? 57))%N then Some (Z.of_N u - 48) else None.

(** The longest prefix of decimal digits, as a mathematical integer; [None]
    when the prefix is empty.  Every digit is read, as the engines do: the
    standard lets an implementation take the digits after the twentieth for
    zeros. *)
Fixpoint parseDigits (s : list N) (acc : option Z) : option Z :=
  match s with
  | u :: s' =>
      match digitValue u with
      | Some d => parseDigits s' (Some (10 * default 0 acc + d))
      | None => acc
      end
  | [] => acc
  end.

(** The Number value of a mathematical integer: the nearest double, ties to
    the even significand of 53 bits.  A double that is finite is an integer
    here and is written as that integer; [2 ^ 1024] and [- 2 ^ 1024], which
    lie beyond every finite double, stand for [Infinity] and [-Infinity], so
    that [<] and [=] on these values are those of the doubles. *)
Definition toNumber (m : Z) : Z :=
  let a := Z.abs m in
  if a <? 2 ^ 53 then m
  else
    let e := Z.log2 a - 52 in
    let q := Z.shiftr a e in
    let r := a - Z.shiftl q e in
    let half := 2 ^ (e - 1) in
    let q' := if ((r >? half) || ((r =? half) && Z.odd q))%bool
              then q + 1 else q in
    let v := Z.shiftl q' e in
    Z.sgn m * (if v <? 2 ^ 1024 then v else 2 ^ 1024).

(** [parseInt(s, 10)]: leading white space, an optional sign, then decimal
    digits, the integer they spell given as a Number; [None] stands for
    [NaN]. *)
Definition parseInt10 (s : string) : option Z :=
  match trimStart (units s) with
  | u :: r =>
      if (u =? 45)%N then (λ m, toNumber (- m)) <$> parseDigits r None
      else if (u =? 43)%N then toNumber <$> parseDigits r None
      else toNumber <$> parseDigits (u :: r) None
  | [] => None
  end.

(** [String(n)] for an integer [n]. *)
Definition String_of_int (n : Z) : string :=
  NilZero.string_of_int (Z.to_int n).

End JS.

(** ** The document head *)

(** An element: its identity (two elements with equal attributes are still
    two elements), its tag and its content attributes.  The module never
    writes an attribute of an element that is already in the document, so an
    element value carries its attributes with it. *)
Record Node := mkNode {
  nid : nat;
  tagName : string;
  attrs : gmap string string;
}.

Global Instance Node_eq_dec : EqDecision Node.
Proof. solve_decision. Defined.

Definition getAttribute (name : string) (n : Node) : option string :=
  attrs n !! name.

(** [parent.getElementsByTagName(tag)] over the children of the head, in
    document order. *)
Definition getElementsByTagName (tag : string) (children : list Node) : list Node :=
  filter (λ n, tagName n = tag) children.

(** [parent.removeChild(n)]: the node of that identity leaves the list. *)
Definition removeChild (n : Node) (children : list Node) : list Node :=
  filter (λ m, nid m ≠ nid n) children.

(** [parent.appendChild(n)]: a node that is already in the tree is moved,
    not copied. *)
Definition appendChild (n : Node) (children : list Node) : list Node :=
  removeChild n children ++ [n].

(** ** Favicon discovery and selection *)

Abbreviation Favicon := Node (only parsing).

(** The body of the loop of [getFavicons], lines 20-38. *)
Fixpoint getFavicons_loop (links favicons : list Favicon) : list Favicon :=
  match links with
  | [] => favicons
  | link :: links' =>
      let href := getAttribute "href" link in
      let rel := getAttribute "rel" link in
      if negb (JS.truthy href) then getFavicons_loop links' favicons
      else if negb (JS.truthy rel) then getFavicons_loop links' favicons
      else if Z.eqb (JS.indexOf "icon" (JS.split " " (default "" rel))) (-1)
           then getFavicons_loop links' favicons
      else getFavicons_loop links' (favicons ++ [link])
  end.

Definition getFavicons (head : list Node) : list Favicon :=
  let links := getElementsByTagName "link" head in
  getFavicons_loop links [].

(** The body of the loop of [getBestFavicon], lines 49-94; the early
    [return favicon] of line 75 ends the recursion. *)
Fixpoint getBestFavicon_loop (favicons : list Favicon)
    (bestFavicon : option Favicon) (bestSize : Z) : option Favicon :=
  match favicons with
  | [] => bestFavicon
  | favicon :: favicons' =>
      let href := getAttribute "href" favicon in
      let rel := getAttribute "rel" favicon in
      let sizes := getAttribute "sizes" favicon in
      if negb (JS.truthy href) then
        getBestFavicon_loop favicons' bestFavicon bestSize
      else if (negb (JS.truthy rel)
               || Z.eqb (JS.indexOf "icon" (JS.split " " (default "" rel))) (-1))%bool then
        getBestFavicon_loop favicons' bestFavicon bestSize
      else if negb (JS.truthy sizes) then
        match bestFavicon with
        | None => getBestFavicon_loop favicons' (Some favicon) 0
        | Some _ => getBestFavicon_loop favicons' bestFavicon bestSize
        end
      else if String.eqb (default "" sizes) "any" then
        Some favicon
      else
        match JS.parseInt10 (JS.first (JS.split "x" (default "" sizes))) with
        | None =>
            match bestFavicon with
            | None => getBestFavicon_loop favicons' (Some favicon) 0
            | Some _ => getBestFavicon_loop favicons' bestFavicon bestSize
            end
        | Some size =>
            if Z.gtb size bestSize then getBestFavicon_loop favicons' (Some favicon) size
            else getBestFavicon_loop favicons' bestFavicon bestSize
        end
  end.

(** [getBestFavicon] on a list of favicons already collected. *)
Definition selectBest (favicons : list Favicon) : option Favicon :=
  getBestFavicon_loop favicons None 0.

Definition getBestFavicon (head : list Node) : option Favicon :=
  selectBest (getFavicons head).

(** ** Options and badge values *)

Record Options := mkOptions {
  backgroundColor : string;
  color : string;
  indicator : string;
}.

(** [Partial<Options>]: a key that is absent or [undefined] is [None]. *)
Record PartialOptions := mkPartial {
  p_backgroundColor : option string;
  p_color : option string;
  p_indicator : option string;
}.

(** The object literal [{}]. *)
Definition noOptions : PartialOptions := mkPartial None None None.

(** The literal of line 104. *)
Definition defaultOptions_literal : Options := mkOptions "#424242" "#ffffff" "!".

(** Modelled from the spec: the helper [./deepMerge] is not among the
    sources.  "Overwrites only keys present in partial; absent or undefined
    keys retain base's value."  The three fields are strings, so merging
    deeply and merging shallowly agree. *)
Definition mergeInto (base : Options) (partial : PartialOptions) : Options :=
  mkOptions (default (backgroundColor base) (p_backgroundColor partial))
            (default (color base) (p_color partial))
            (default (indicator base) (p_indicator partial)).

(** Modelled from the spec: the type [Value] of [./index] is not among the
    sources.  "Either a non-negative integer count, or any other value
    (including booleans, negative numbers, non-numeric)."  Numbers are the
    integers. *)
Inductive Value :=
  | VNumber (n : Z)
  | VBoolean (b : bool)
  | VString (s : string).

(** Modelled from the spec: the helper [./isPositiveNumber] is not among the
    sources.  It holds of the numbers that are not negative ("if value is a
    non-negative integer ..., for any non-numeric or negative value ...").
    It is a type guard: where it holds, [value] is known to be a number,
    which is the [Some n] here. *)
Definition isPositiveNumber (value : Value) : option Z :=
  match value with
  | VNumber n => if Z.leb 0 n then Some n else None
  | _ => None
  end.

(** ** The badge compositor *)

(** The calls made on a [CanvasRenderingContext2D], in order. *)
Inductive CanvasOp :=
  | ClearRect (x y w h : Z)
  | DrawImage (src : string) (sx sy sw sh dx dy dw dh : Z)
  | Save
  | Restore
  | SetGlobalAlpha (a : Z)
  | SetFillStyle (style : string)
  | SetStrokeStyle (style : string)
  | SetLineWidth (w : Z)
  | BeginPath
  | MoveTo (x y : Z)
  | QuadraticCurveTo (cpx cpy x y : Z)
  | LineTo (x y : Z)
  | ClosePath
  | Fill
  | SetFont (font : string)
  | SetTextAlign (align : string)
  | SetTextBaseline (baseline : string)
  | FillText (text : string) (x y : Z).

(** What the module takes from its host: [Math.ceil(window.devicePixelRatio)]
    ([None] for [NaN]), whether a canvas yields a 2D context, the
    serialisation of what was drawn, and the URL that the value of an [href]
    attribute resolves to against the base URL of the page (the value itself
    when it does not parse); the base URL is taken not to change during a
    run. *)
Record Env := mkEnv {
  ceilDevicePixelRatio : option Z;
  getContext2d : bool;
  toDataURL : list CanvasOp → string;
  resolveURL : string → string;
}.

(** [link.href], the property: the resolved URL of the [href] attribute, and
    the empty string when the attribute is missing. *)
Definition href (env : Env) (n : Node) : string :=
  match getAttribute "href" n with
  | Some a => resolveURL env a
  | None => ""
  end.

Section Compositor.

Context (env : Env).

(** [Math.ceil(window.devicePixelRatio) || 1]: [0] and [NaN] are falsy. *)
Definition ratio : Z :=
  match ceilDevicePixelRatio env with
  | Some r => if Z.eqb r 0 then 1 else r
  | None => 1
  end.

Definition size : Z := 16 * ratio.

(** Lines 187-198: the text of the badge. *)
Definition finalValue (value : Value) (options : Options) : string :=
  match isPositiveNumber value with
  | Some n =>
      if Z.eqb n 0 then ""
      else if Z.ltb n 100 then JS.String_of_int n
      else "99+"
  | None => indicator options
  end.

(** [drawBubble]: the calls it makes on the context.  [width] is a multiple
    of four, so [width / 2] is exact. *)
Definition drawBubble (value : Value) (options : Options) : list CanvasOp :=
  let finalValue := finalValue value options in
  if String.eqb finalValue "" then []
  else
    let length := Z.of_nat (JS.length finalValue) - 1 in
    let width := 8 * ratio + 4 * ratio * length in
    let height := 7 * ratio in
    let top := size - height in
    let left := size - width - ratio in
    let bottom := 16 * ratio in
    let right := 16 * ratio in
    let radius := 5 * ratio in
    [ Save;
      SetGlobalAlpha 1;
      SetFillStyle (backgroundColor options);
      SetStrokeStyle (backgroundColor options);
      SetLineWidth ratio;
      BeginPath;
      MoveTo (left + radius) top;
      QuadraticCurveTo left top left (top + radius);
      LineTo left (bottom - radius);
      QuadraticCurveTo left bottom (left + radius) bottom;
      LineTo (right - radius) bottom;
      QuadraticCurveTo right bottom right (bottom - radius);
      LineTo right (top + radius);
      QuadraticCurveTo right top (right - radius) top;
      ClosePath;
      Fill;
      Restore;
      Save;
      SetFont (String.append (JS.String_of_int (7 * ratio)) "px Arial");
      SetFillStyle (color options);
      SetTextAlign "center";
      SetTextBaseline "top";
      FillText finalValue (left + width / 2 + 1) (9 * ratio + 1);
      Restore ].

End Compositor.

(** The texts drawn by a sequence of canvas calls. *)
Definition textsDrawn (ops : list CanvasOp) : list string :=
  omap (λ op, match op with FillText t _ _ => Some t | _ => None end) ops.

(** ** Module state *)

(** An [HTMLImageElement] made by [drawFavicon] whose [src] was assigned:
    the arguments captured by its [onload] handler and what it loads.  The
    options are captured by reference. *)
Record Image := mkImage {
  img_value : Value;
  img_options : nat;
  img_src : string;
  img_crossOrigin : option string;
}.

(** Calls of the two scanning functions, recorded where they are made. *)
Inductive Call := CallGetFavicons | CallGetBestFavicon.

Global Instance Call_eq_dec : EqDecision Call.
Proof. solve_decision. Defined.

(** The document head, the objects of type [Options] (by address), the
    module-level variables [canvas], [context] (with what was drawn on it)
    and [current], the images that are loading, and the record of calls. *)
Record State := mkState {
  doc_head : list Node;
  nextId : nat;
  objects : gmap nat Options;
  canvas : option (Z * Z);
  context : option (list CanvasOp);
  current_favicons : option (list Favicon);
  current_bestFavicon : option Favicon;
  current_value : Value;
  current_options : nat;
  images : list Image;
  calls : list Call;
}.

(** The address of the object bound to the exported [defaultOptions]. *)
Definition defaultOptions : nat := 0%nat.

(** The state after the module is loaded into a page whose head holds
    [children]: line 120 stores the reference [defaultOptions] itself in
    [current.options]. *)
Definition initial (children : list Node) : State :=
  {| doc_head := children;
     nextId := S (max_list (nid <$> children));
     objects := {[ defaultOptions := defaultOptions_literal ]};
     canvas := None;
     context := None;
     current_favicons := None;
     current_bestFavicon := None;
     current_value := VNumber 0;
     current_options := defaultOptions;
     images := [];
     calls := [] |}.

Definition with_head (f : list Node → list Node) (st : State) : State :=
  {| doc_head := f (doc_head st); nextId := nextId st; objects := objects st;
     canvas := canvas st; context := context st;
     current_favicons := current_favicons st;
     current_bestFavicon := current_bestFavicon st;
     current_value := current_value st; current_options := current_options st;
     images := images st; calls := calls st |}.

Definition with_nextId (n : nat) (st : State) : State :=
  {| doc_head := doc_head st; nextId := n; objects := objects st;
     canvas := canvas st; context := context st;
     current_favicons := current_favicons st;
     current_bestFavicon := current_bestFavicon st;
     current_value := current_value st; current_options := current_options st;
     images := images st; calls := calls st |}.

Definition with_objects (f : gmap nat Options → gmap nat Options) (st : State) : State :=
  {| doc_head := doc_head st; nextId := nextId st; objects := f (objects st);
     canvas := canvas st; context := context st;
     current_favicons := current_favicons st;
     current_bestFavicon := current_bestFavicon st;
     current_value := current_value st; current_options := current_options st;
     images := images st; calls := calls st |}.

Definition with_canvas (c : option (Z * Z)) (x : option (list CanvasOp)) (st : State) : State :=
  {| doc_head := doc_head st; nextId := nextId st; objects := objects st;
     canvas := c; context := x;
     current_favicons := current_favicons st;
     current_bestFavicon := current_bestFavicon st;
     current_value := current_value st; current_options := current_options st;
     images := images st; calls := calls st |}.

Definition with_favicons (fs : option (list Favicon)) (st : State) : State :=
  {| doc_head := doc_head st; nextId := nextId st; objects := objects st;
     canvas := canvas st; context := context st;
     current_favicons := fs;
     current_bestFavicon := current_bestFavicon st;
     current_value := current_value st; current_options := current_options st;
     images := images st; calls := calls st |}.

Definition with_bestFavicon (b : option Favicon) (st : State) : State :=
  {| doc_head := doc_head st; nextId := nextId st; objects := objects st;
     canvas := canvas st; context := context st;
     current_favicons := current_favicons st;
     current_bestFavicon := b;
     current_value := current_value st; current_options := current_options st;
     images := images st; calls := calls st |}.

Definition with_value (v : Value) (st : State) : State :=
  {| doc_head := doc_head st; nextId := nextId st; objects := objects st;
     canvas := canvas st; context := context st;
     current_favicons := current_favicons st;
     current_bestFavicon := current_bestFavicon st;
     current_value := v; current_options := current_options st;
     images := images st; calls := calls st |}.

Definition with_images (f : list Image → list Image) (st : State) : State :=
  {| doc_head := doc_head st; nextId := nextId st; objects := objects st;
     canvas := canvas st; context := context st;
     current_favicons := current_favicons st;
     current_bestFavicon := current_bestFavicon st;
     current_value := current_value st; current_options := current_options st;
     images := f (images st); calls := calls st |}.

Definition with_call (c : Call) (st : State) : State :=
  {| doc_head := doc_head st; nextId := nextId st; objects := objects st;
     canvas := canvas st; context := context st;
     current_favicons := current_favicons st;
     current_bestFavicon := current_bestFavicon st;
     current_value := current_value st; current_options := current_options st;
     images := images st; calls := calls st ++ [c] |}.

(** *** A state monad for the module's functions *)

Definition M (A : Type) : Type := State → A * State.

Definition ret {A} (a : A) : M A := λ st, (a, st).

Definition bind {A B} (m : M A) (k : A → M B) : M B :=
  λ st, let '(a, st') := m st in k a st'.

Definition gets {A} (f : State → A) : M A := λ st, (f st, st).

Definition modify (f : State → State) : M unit := λ st, (tt, f st).

Declare Scope js_scope.
Delimit Scope js_scope with js.
Notation "x <- m ;; k" := (bind m (λ x, k))
  (at level 100, m at next level, right associativity) : js_scope.
Notation "m ;; k" := (bind m (λ _, k))
  (at level 100, right associativity) : js_scope.
Local Open Scope js_scope.

Section Session.

Context (env : Env).

(** [getFavicons()] and [getBestFavicon()] as the module calls them, on the
    current document. *)
Definition getFaviconsM : M (list Favicon) :=
  modify (with_call CallGetFavicons) ;;
  gets (λ st, getFavicons (doc_head st)).

Definition getBestFaviconM : M (option Favicon) :=
  modify (with_call CallGetBestFavicon) ;;
  favicons <- getFaviconsM ;;
  ret (selectBest favicons).

(** The two loops "for (const favicon of getFavicons()) ... removeChild". *)
Definition removeAll (favicons : list Favicon) (children : list Node) : list Node :=
  foldl (λ h favicon, removeChild favicon h) children favicons.

(** The loop "for (const favicon of current.favicons) appendChild". *)
Definition appendAll (favicons : list Favicon) (children : list Node) : list Node :=
  foldl (λ h favicon, appendChild favicon h) children favicons.

(** The link element built by lines 141-145; [id] is its identity. *)
Definition newFavicon (id : nat) (url : string) : Node :=
  mkNode id "link"
    (<["href" := url]> (<["rel" := "icon favicon"]>
      (<["type" := "image/x-icon"]> {["id" := "badgin"]}))).

(** [setFavicon].  Every element that [getFavicons] returns is a child of
    the head, so the test of [favicon.parentNode] succeeds. *)
Definition setFavicon (url : string) : M unit :=
  if String.eqb url "" then ret tt
  else
    favicons <- getFaviconsM ;;
    modify (with_head (removeAll favicons)) ;;
    id <- gets nextId ;;
    modify (with_nextId (S id)) ;;
    modify (with_head (appendChild (newFavicon id url))).

(** The [onload] handler of the image made by [drawFavicon], for an image
    of the given dimensions.  The handler asserts that [context] is not
    null; images load only after [isAvailable] held, when it is not. *)
Definition image_onload (image : Image) (width height : Z) : M unit :=
  c <- gets canvas ;;
  match c with
  | None => ret tt
  | Some _ =>
      ctx <- gets context ;;
      objs <- gets objects ;;
      match ctx, objs !! img_options image with
      | Some drawn, Some options =>
          let drawn' :=
            (drawn ++ [ClearRect 0 0 (size env) (size env);
                       DrawImage (img_src image) 0 0 width height 0 0 (size env) (size env)]
                   ++ drawBubble env (img_value image) options)%list in
          modify (λ st, with_canvas (canvas st) (Some drawn') st) ;;
          setFavicon (toDataURL env drawn')
      | _, _ => ret tt
      end
  end.

(** [drawFavicon]: the image is made, its handler installed, and its [src]
    assigned when there is a best favicon.  An image without a [src] never
    loads and is not kept.  Lines 170-177 read the [href] property of the
    best favicon, the resolved URL, and not its attribute. *)
Definition drawFavicon (value : Value) (options : nat) : M unit :=
  best <- gets current_bestFavicon ;;
  match best with
  | Some favicon =>
      let url := href env favicon in
      let crossOrigin := if String.prefix "data" url then None else Some "anonymous" in
      modify (with_images (λ l, l ++ [mkImage value options url crossOrigin]))
  | None => ret tt
  end.

Definition isAvailable : M bool :=
  ctx <- gets context ;;
  (match ctx with
   | None =>
       modify (with_canvas (Some (size env, size env))
                           (if getContext2d env then Some [] else None))
   | Some _ => ret tt
   end) ;;
  ctx <- gets context ;;
  match ctx with
  | None => ret false
  | Some _ =>
      best <- getBestFaviconM ;;
      ret (bool_decide (is_Some best))
  end.

Definition deepMerge (target : nat) (source : PartialOptions) : M unit :=
  modify (with_objects (alter (λ o, mergeInto o source) target)).

Definition set (value : Value) (options : option PartialOptions) : M bool :=
  modify (with_value value) ;;
  target <- gets current_options ;;
  deepMerge target (default noOptions options) ;;
  available <- isAvailable ;;
  if negb available then ret false
  else
    best <- gets current_bestFavicon ;;
    (match best with
     | Some _ => ret tt
     | None => b <- getBestFaviconM ;; modify (with_bestFavicon b)
     end) ;;
    favicons <- gets current_favicons ;;
    (match favicons with
     | Some _ => ret tt
     | None => fs <- getFaviconsM ;; modify (with_favicons (Some fs))
     end) ;;
    v <- gets current_value ;;
    o <- gets current_options ;;
    drawFavicon v o ;;
    ret true.

Definition clear : M unit :=
  available <- isAvailable ;;
  if negb available then ret tt
  else
    favicons <- gets current_favicons ;;
    match favicons with
    | Some snapshot =>
        present <- getFaviconsM ;;
        modify (with_head (removeAll present)) ;;
        modify (with_head (appendAll snapshot)) ;;
        modify (with_favicons None) ;;
        modify (with_bestFavicon None)
    | None => ret tt
    end.

(** *** Runs of the module *)

(** What happens to the module between two turns of the event loop: a call
    of an exported function, the load of an image (the [k]th of those that
    are loading), or the host page removing an element of the head. *)
Inductive Op :=
  | OpSet (value : Value) (options : option PartialOptions)
  | OpClear
  | OpIsAvailable
  | OpLoad (k : nat) (width height : Z)
  | OpHostRemove (n : Node).

Definition step (op : Op) (st : State) : State :=
  match op with
  | OpSet value options => snd (set value options st)
  | OpClear => snd (clear st)
  | OpIsAvailable => snd (isAvailable st)
  | OpLoad k width height =>
      match images st !! k with
      | Some image =>
          snd (image_onload image width height (with_images (delete k) st))
      | None => st
      end
  | OpHostRemove n => with_head (removeChild n) st
  end.

Definition run (ops : list Op) (st : State) : State :=
  foldl (λ st op, step op st) st ops.

End Session.

(** * Vocabulary of the properties *)

(** ** Candidates *)

(** The guards of lines 55-61 (and 25-35): a non-empty [href], and a [rel]
    holding the token [icon]. *)
Definition qualifies (n : Node) : bool :=
  JS.truthy (getAttribute "href" n)
  && JS.truthy (getAttribute "rel" n)
  && negb (Z.eqb (JS.indexOf "icon" (JS.split " " (default "" (getAttribute "rel" n)))) (-1)).

Definition hasHref (n : Node) : Prop :=
  ∃ h, getAttribute "href" n = Some h ∧ h ≠ "".

(** The tokens of [rel] are what lies between its U+0020 characters. *)
Definition hasIconToken (n : Node) : Prop :=
  ∃ r, getAttribute "rel" n = Some r ∧ "icon" ∈ JS.split " " r.

(** An icon link: what [getFavicons] keeps. *)
Definition isIconLink (n : Node) : Prop := tagName n = "link" ∧ qualifies n = true.

Global Instance isIconLink_dec n : Decision (isIconLink n).
Proof. unfold isIconLink. apply _. Defined.

(** The value parsed from [sizes] by line 79, for a descriptor that is
    present, not empty and not [any]. *)
Definition numericSize (n : Node) : option Z :=
  match getAttribute "sizes" n with
  | Some s =>
      if String.eqb s "" then None
      else if String.eqb s "any" then None
      else JS.parseInt10 (JS.first (JS.split "x" s))
  | None => None
  end.

Definition sizeAny (n : Node) : Prop := getAttribute "sizes" n = Some "any".

(** Every qualifying candidate of [fs] has a numeric size related to [n]
    by [R]. *)
Definition sizesAll (R : Z → Z → Prop) (n : Z) (fs : list Node) : Prop :=
  ∀ c, c ∈ fs → qualifies c = true → ∃ m, numericSize c = Some m ∧ R m n.

(** ** The tokens of [rel] in the words of the specification *)

(** The tokens of a [rel] value as HTML defines them: split at ASCII white
    space (tab, line feed, form feed, carriage return, space), with no empty
    token.  This follows the wording of the specification, not the code. *)
Definition isAsciiWhitespace (c : ascii) : bool :=
  let n := nat_of_ascii c in
  (Nat.eqb n 9 || Nat.eqb n 10 || Nat.eqb n 12 || Nat.eqb n 13 || Nat.eqb n 32)%bool.

Fixpoint splitWhere (sep : ascii → bool) (s : string) : list string :=
  match s with
  | EmptyString => [EmptyString]
  | String c s' =>
      if sep c then EmptyString :: splitWhere sep s'
      else match splitWhere sep s' with
           | t :: ts => String c t :: ts
           | [] => [String c EmptyString]
           end
  end.

Definition whitespaceTokens (s : string) : list string :=
  filter (λ t, t ≠ "") (splitWhere isAsciiWhitespace s).

Definition hasIconWhitespaceToken (n : Node) : Prop :=
  ∃ r, getAttribute "rel" n = Some r ∧ "icon" ∈ whitespaceTokens r.

(** An icon link in the words of the specification: a link element with an
    [href] that is not empty and [icon] among the white-space-separated
    tokens of its [rel]. *)
Definition iconLinkAsSpecified (n : Node) : Prop :=
  tagName n = "link" ∧ hasHref n ∧ hasIconWhitespaceToken n.

(** ** The text of the badge in the words of the specification *)

(** The text of the badge in the words of the specification. *)
Inductive badgeText (options : Options) : Value → string → Prop :=
  | text_zero : badgeText options (VNumber 0) ""
  | text_count n : 1 ≤ n ≤ 99 → badgeText options (VNumber n) (JS.String_of_int n)
  | text_many n : 100 ≤ n → badgeText options (VNumber n) "99+"
  | text_negative n : n < 0 → badgeText options (VNumber n) (indicator options)
  | text_boolean b : badgeText options (VBoolean b) (indicator options)
  | text_string s : badgeText options (VString s) (indicator options).

(** ** The state after each stage of [set], [setFavicon] and [clear] *)

(** The state once [isAvailable] has made the canvas, if it had to. *)
Definition prepared (env : Env) (st : State) : State :=
  match context st with
  | Some _ => st
  | None =>
      with_canvas (Some (size env, size env))
                  (if getContext2d env then Some [] else None) st
  end.

(** The state once [getBestFavicon] has been called. *)
Definition scanned (st : State) : State :=
  with_call CallGetFavicons (with_call CallGetBestFavicon st).

(** Lines 257-258: the value and the options are remembered. *)
Definition recorded (value : Value) (options : option PartialOptions) (st : State) : State :=
  with_objects (alter (λ o, mergeInto o (default noOptions options)) (current_options st))
               (with_value value st).

(** Line 265. *)
Definition fillBest (st : State) : State :=
  match current_bestFavicon st with
  | Some _ => st
  | None => with_bestFavicon (getBestFavicon (doc_head st)) (scanned st)
  end.

(** Line 266. *)
Definition fillFavicons (st : State) : State :=
  match current_favicons st with
  | Some _ => st
  | None => with_favicons (Some (getFavicons (doc_head st))) (with_call CallGetFavicons st)
  end.

(** Line 269. *)
Definition startLoad (env : Env) (st : State) : State :=
  match current_bestFavicon st with
  | Some favicon =>
      let url := href env favicon in
      with_images
        (λ l, l ++ [mkImage (current_value st) (current_options st) url
                      (if String.prefix "data" url then None else Some "anonymous")])
        st
  | None => st
  end.

(** Lines 159-163: what the handler draws. *)
Definition painted (env : Env) (image : Image) (width height : Z)
    (drawn : list CanvasOp) (options : Options) : list CanvasOp :=
  drawn ++ [ClearRect 0 0 (size env) (size env);
            DrawImage (img_src image) 0 0 width height 0 0 (size env) (size env)]
        ++ drawBubble env (img_value image) options.

(** Lines 134-147. *)
Definition installed (url : string) (st : State) : State :=
  with_head (appendChild (newFavicon (nextId st) url))
    (with_nextId (S (nextId st))
       (with_head (removeAll (getFavicons (doc_head st)))
          (with_call CallGetFavicons st))).

(** Lines 280-291. *)
Definition restored (snapshot : list Favicon) (st : State) : State :=
  with_bestFavicon None
    (with_favicons None
       (with_head (appendAll snapshot)
          (with_head (removeAll (getFavicons (doc_head st)))
             (with_call CallGetFavicons st)))).

(** ** Invariants *)

(** In a session the base icon and the snapshot are cached and the context
    exists. *)
Record inSession (b : Favicon) (fs : list Favicon) (st : State) : Prop := {
  session_best : current_bestFavicon st = Some b;
  session_favicons : current_favicons st = Some fs;
  session_context : is_Some (context st);
}.

(** What holds of every state the module can reach: a context comes with
    its canvas, images load only once the context exists, and every
    reference to an [Options] object, in [current] or captured by a loading
    image, is the one address [defaultOptions], which is allocated. *)
Record wfState (st : State) : Prop := {
  wf_canvas : is_Some (context st) → is_Some (canvas st);
  wf_images : ∀ img, img ∈ images st →
              is_Some (context st) ∧ img_options img = defaultOptions;
  wf_options : current_options st = defaultOptions;
  wf_defaults : is_Some (objects st !! defaultOptions);
}.

(** What holds of the document and of the snapshot in every state reached
    from a page whose elements are distinct: the elements of the head are
    distinct and were allocated before [nextId], and a snapshot is a list of
    distinct icon links. *)
Record docState (st : State) : Prop := {
  doc_distinct : NoDup (nid <$> doc_head st);
  doc_allocated : ∀ m, m ∈ doc_head st → (nid m < nextId st)%nat;
  doc_snapshot : ∀ fs, current_favicons st = Some fs →
                 NoDup (nid <$> fs) ∧ Forall isIconLink fs
                 ∧ ∀ m, m ∈ fs → (nid m < nextId st)%nat;
}.

(** While a snapshot is held the gate is open. *)
Definition snapshotAvailable (st : State) : Prop :=
  is_Some (current_favicons st) →
  is_Some (context st) ∧ is_Some (getBestFavicon (doc_head st)).

(** ** The fields of the options *)

Inductive Key := KBackgroundColor | KColor | KIndicator.

Definition field (key : Key) (o : Options) : string :=
  match key with
  | KBackgroundColor => backgroundColor o
  | KColor => color o
  | KIndicator => indicator o
  end.

Definition partialField (key : Key) (p : PartialOptions) : option string :=
  match key with
  | KBackgroundColor => p_backgroundColor p
  | KColor => p_color p
  | KIndicator => p_indicator p
  end.

(** A call of [set] whose options hold [key]. *)
Definition writes (key : Key) (op : Op) : Prop :=
  match op with
  | OpSet _ (Some q) => is_Some (partialField key q)
  | _ => False
  end.

(** The field [key] of the object bound to the exported [defaultOptions]. *)
Definition exportedDefault (key : Key) (st : State) : option string :=
  field key <$> (objects st !! defaultOptions).

(** ** Sample documents *)

Definition link (i : nat) (href rel : string) (sizes : option string) : Node :=
  mkNode i "link"
    (match sizes with
     | Some s => <["sizes" := s]> (<["rel" := rel]> {["href" := href]})
     | None => <["rel" := rel]> {["href" := href]}
     end).

Definition icon32 : Node := link 0 "a.png" "icon" (Some "32x32").
Definition icon16 : Node := link 1 "b.png" "icon" (Some "16x16").
Definition iconAny : Node := link 2 "c.svg" "icon" (Some "any").
Definition iconAny' : Node := link 6 "f.svg" "icon" (Some "any").
Definition icon0 : Node := link 3 "d.png" "icon" (Some "0x0").

(** [rel] with a tab between its two tokens. *)
Definition iconTab : Node :=
  link 4 "e.png" (String.append "shortcut" (String "009"%char "icon")) None.

Definition stylesheet : Node := link 5 "s.css" "stylesheet" None.

(** The page of the scenario: two icon links, of 32 and of 16 pixels. *)
Definition page : list Node := [icon32; icon16].

Fixpoint lowerCase (s : string) : string :=
  match s with
  | EmptyString => EmptyString
  | String c s' =>
      let n := nat_of_ascii c in
      String (if (Nat.leb 65 n && Nat.leb n 90)%bool then ascii_of_nat (n + 32) else c)
             (lowerCase s')
  end.

(** A host with a working canvas on a display of ratio one, whose page is at
    [https://badgin.example/]: a data URL resolves to itself with its scheme
    in lower case, and any other value, taken as a relative path, to a URL
    under the page. *)
Definition env0 : Env :=
  mkEnv (Some 1) true
        (λ drawn, String.append "data:image/png;base64,"
                    (JS.String_of_int (Z.of_nat (length drawn))))
        (λ a, if String.eqb (lowerCase (substring 0 5 a)) "data:"
              then String.append "data:" (substring 5 (String.length a - 5) a)
              else String.append "https://badgin.example/" a).

(** The scenario: the badge [5] is shown on [page]. *)
Definition badged : State :=
  run env0 [OpSet (VNumber 5) None; OpLoad 0 32 32] (initial page).

(** The host page has removed both icons after the badge was requested. *)
Definition iconsGone : State :=
  run env0 [OpSet (VNumber 5) None; OpHostRemove icon32; OpHostRemove icon16]
      (initial page).

(** ** Candidates without a usable size *)

(** A candidate whose [sizes] is missing, empty or does not parse: lines
    64-71 and 80-87. *)
Definition sizeless (n : Node) : Prop := ¬ sizeAny n ∧ numericSize n = None.

(** A qualifying candidate is not [any] and, if it carries a numeric size,
    that size is related to [n] by [R]. *)
Definition sizeBounded (R : Z → Z → Prop) (n : Z) (c : Node) : Prop :=
  qualifies c = true → ¬ sizeAny c ∧ ∀ m, numericSize c = Some m → R m n.

(** ** Decimal numerals *)

(** The number that the digits of [d] make when they follow the digits
    that made [a]. *)
Fixpoint digitsValue (d : Decimal.uint) (a : Z) : Z :=
  match d with
  | Decimal.Nil => a
  | Decimal.D0 l => digitsValue l (10 * a)
  | Decimal.D1 l => digitsValue l (10 * a + 1)
  | Decimal.D2 l => digitsValue l (10 * a + 2)
  | Decimal.D3 l => digitsValue l (10 * a + 3)
  | Decimal.D4 l => digitsValue l (10 * a + 4)
  | Decimal.D5 l => digitsValue l (10 * a + 5)
  | Decimal.D6 l => digitsValue l (10 * a + 6)
  | Decimal.D7 l => digitsValue l (10 * a + 7)
  | Decimal.D8 l => digitsValue l (10 * a + 8)
  | Decimal.D9 l => digitsValue l (10 * a + 9)
  end.

(** The character [sep] does not occur in [s]. *)
Fixpoint noChar (sep : ascii) (s : string) : bool :=
  match s with
  | EmptyString => true
  | String c s' => negb (Ascii.eqb c sep) && noChar sep s'
  end.

(** ** Hosts and operations *)



(** A page with a style sheet between its two icon links. *)
Definition mixedPage : list Node := [icon32; stylesheet; icon16].

(** A candidate that [getBestFavicon] can settle on: it qualifies and its
    size, if it parses, is positive. *)
Definition usable (c : Node) : Prop :=
  qualifies c = true ∧ ∀ m, numericSize c = Some m → 0 < m.

(** ** The geometry of the bubble *)

(** The points of the path that a sequence of canvas calls traces. *)
Definition pathPoints (ops : list CanvasOp) : list (Z * Z) :=
  ops ≫= λ op,
    match op with
    | MoveTo x y => [(x, y)]
    | LineTo x y => [(x, y)]
    | QuadraticCurveTo cpx cpy x y => [(cpx, cpy); (x, y)]
    | _ => []
    end.

(** A point of the canvas, whose side is [size]. *)
Definition inCanvas (env : Env) (p : Z * Z) : Prop :=
  0 ≤ p.1 ≤ size env ∧ 0 ≤ p.2 ≤ size env.

(** * Properties *)

(** ** Qualifying candidates *)

Lemma indexOf_from_absent x l i :
  0 ≤ i → JS.indexOf_from x l i = -1 ↔ x ∉ l.
Proof.
  revert i. induction l as [|y l IH]; intros i Hi; simpl.
  - split; [intros _; apply not_elem_of_nil | done].
  - destruct (String.eqb_spec y x) as [->|Hne].
    + split; [lia | intros H; exfalso; apply H; left].
    + rewrite IH by lia. rewrite not_elem_of_cons. split; [intros ?; split; congruence | tauto].
Qed.

Lemma indexOf_absent x l : JS.indexOf x l = -1 ↔ x ∉ l.
Proof. apply indexOf_from_absent. lia. Qed.

Lemma truthy_Some o : JS.truthy o = true ↔ ∃ s, o = Some s ∧ s ≠ "".
Proof.
  destruct o as [s|]; simpl.
  - destruct (String.eqb_spec s "") as [->|Hne]; simpl.
    + split; [discriminate | intros (s & [= <-] & H); congruence].
    + split; [intros _; eauto | done].
  - split; [discriminate | intros (s & [=] & _)].
Qed.

Lemma qualifies_iff n : qualifies n = true ↔ hasHref n ∧ hasIconToken n.
Proof.
  unfold qualifies, hasHref, hasIconToken.
  rewrite !andb_true_iff, negb_true_iff, Z.eqb_neq, !truthy_Some, indexOf_absent.
  split.
  - intros [[Hh (r & Hr & Hne)] Hin]. split; [done|].
    exists r. split; [done|]. rewrite Hr in Hin. simpl in Hin.
    destruct (decide ("icon" ∈ JS.split " " r)); tauto.
  - intros [Hh (r & Hr & Hin)]. rewrite Hr. simpl. repeat split; [done| |tauto].
    exists r. split; [done|]. intros ->. vm_compute in Hin.
    apply list_elem_of_singleton in Hin. discriminate.
Qed.

Lemma getFavicons_loop_filter links favicons :
  getFavicons_loop links favicons
  = favicons ++ filter (λ n, qualifies n = true) links.
Proof.
  revert favicons. induction links as [|l links IH]; intros favicons.
  - simpl. by rewrite app_nil_r.
  - rewrite filter_cons. cbn [getFavicons_loop]. unfold qualifies.
    destruct (JS.truthy (getAttribute "href" l)); simpl; [|by rewrite IH].
    destruct (JS.truthy (getAttribute "rel" l)); simpl; [|by rewrite IH].
    destruct (Z.eqb _ _); simpl; rewrite IH; [done|].
    by rewrite <- app_assoc.
Qed.

Lemma getFavicons_filter head :
  getFavicons head
  = filter (λ n, qualifies n = true) (getElementsByTagName "link" head).
Proof. unfold getFavicons. by rewrite getFavicons_loop_filter. Qed.

(** ** One turn of the selection loop *)

Section LoopSteps.

Context (c : Node) (fs : list Node) (best : option Node) (bs : Z).

Lemma loop_skip :
  qualifies c = false →
  getBestFavicon_loop (c :: fs) best bs = getBestFavicon_loop fs best bs.
Proof.
  unfold qualifies. cbn [getBestFavicon_loop].
  destruct (JS.truthy (getAttribute "href" c)); simpl; [|done].
  destruct (JS.truthy (getAttribute "rel" c)); simpl; [|done].
  destruct (Z.eqb _ _); simpl; [done|discriminate].
Qed.

Lemma loop_any :
  qualifies c = true → sizeAny c →
  getBestFavicon_loop (c :: fs) best bs = Some c.
Proof.
  unfold qualifies, sizeAny. cbn [getBestFavicon_loop]. intros Hq ->.
  destruct (JS.truthy (getAttribute "href" c)); simpl in *; [|done].
  destruct (JS.truthy (getAttribute "rel" c)); simpl in *; [|done].
  destruct (Z.eqb _ _); simpl in *; done.
Qed.

Lemma loop_numeric n :
  qualifies c = true → numericSize c = Some n →
  getBestFavicon_loop (c :: fs) best bs
  = if Z.gtb n bs then getBestFavicon_loop fs (Some c) n
    else getBestFavicon_loop fs best bs.
Proof.
  unfold qualifies, numericSize. cbn [getBestFavicon_loop]. intros Hq Hn.
  destruct (JS.truthy (getAttribute "href" c)); simpl in *; [|done].
  destruct (JS.truthy (getAttribute "rel" c)); simpl in *; [|done].
  destruct (Z.eqb _ _); simpl in *; [done|].
  destruct (getAttribute "sizes" c) as [s|]; simpl in *; [|done].
  destruct (String.eqb s ""); simpl in *; [done|].
  destruct (String.eqb s "any"); [done|].
  by rewrite Hn.
Qed.

Lemma loop_sizeless :
  qualifies c = true → ¬ sizeAny c → numericSize c = None →
  getBestFavicon_loop (c :: fs) best bs
  = match best with
    | None => getBestFavicon_loop fs (Some c) 0
    | Some _ => getBestFavicon_loop fs best bs
    end.
Proof.
  unfold qualifies, numericSize, sizeAny. cbn [getBestFavicon_loop].
  intros Hq Hany Hn.
  destruct (JS.truthy (getAttribute "href" c)); simpl in *; [|done].
  destruct (JS.truthy (getAttribute "rel" c)); simpl in *; [|done].
  destruct (Z.eqb _ _); simpl in *; [done|].
  destruct (getAttribute "sizes" c) as [s|]; simpl in *; [|done].
  destruct (String.eqb s ""); simpl in *; [done|].
  destruct (String.eqb_spec s "any") as [->|_]; [done|].
  by rewrite Hn.
Qed.

End LoopSteps.

Lemma sizesAll_cons_skip R n c fs :
  qualifies c = false → sizesAll R n fs → sizesAll R n (c :: fs).
Proof.
  intros Hc H d Hd Hq. apply elem_of_cons in Hd as [->|Hd]; [congruence|eauto].
Qed.

Lemma sizesAll_cons R n c fs m :
  numericSize c = Some m → R m n → sizesAll R n fs → sizesAll R n (c :: fs).
Proof.
  intros Hc Hm H d Hd Hq. apply elem_of_cons in Hd as [->|Hd]; eauto.
Qed.

Lemma sizesAll_tail R n c fs : sizesAll R n (c :: fs) → sizesAll R n fs.
Proof. intros H d Hd. apply H. by right. Qed.

(** The loop over candidates that all carry numeric sizes: either nothing
    exceeds [bs] and the incoming [best] stands, or the result is the first
    candidate of the largest size. *)
Lemma loop_numeric_spec fs : ∀ best bs,
  sizesAll (λ _ _, True) 0 fs →
  (getBestFavicon_loop fs best bs = best ∧ sizesAll Z.le bs fs)
  ∨ (∃ l1 b l2 n,
       fs = l1 ++ b :: l2
       ∧ getBestFavicon_loop fs best bs = Some b
       ∧ qualifies b = true ∧ numericSize b = Some n ∧ bs < n
       ∧ sizesAll Z.lt n l1 ∧ sizesAll Z.le n l2).
Proof.
  induction fs as [|c fs IH]; intros best bs Hall.
  - left. split; [done|]. intros c Hc. by apply elem_of_nil in Hc.
  - pose proof (sizesAll_tail _ _ _ _ Hall) as Hall'.
    destruct (qualifies c) eqn:Hq.
    + destruct (Hall c) as (m & Hm & _); [by left|done|].
      rewrite (loop_numeric _ _ _ _ m Hq Hm).
      destruct (Z.gtb_spec m bs) as [Hgt|Hle].
      * destruct (IH (Some c) m Hall') as [[Hres Hle]|(l1 & b & l2 & n & -> & Hres & Hb & Hn & Hlt & H1 & H2)].
        -- right. exists [], c, fs, m.
           split_and!; [done|done|done|done|lia| |done].
           intros d Hd. by apply elem_of_nil in Hd.
        -- right. exists (c :: l1), b, l2, n.
           split_and!; [done|done|done|done|lia| |done].
           apply (sizesAll_cons _ _ _ _ m); [done|lia|done].
      * destruct (IH best bs Hall') as [[Hres Hle']|(l1 & b & l2 & n & -> & Hres & Hb & Hn & Hlt & H1 & H2)].
        -- left. split; [done|]. by apply (sizesAll_cons _ _ _ _ m).
        -- right. exists (c :: l1), b, l2, n.
           split_and!; [done|done|done|done|done| |done].
           apply (sizesAll_cons _ _ _ _ m); [done|lia|done].
    + rewrite (loop_skip _ _ _ _ Hq).
      destruct (IH best bs Hall') as [[Hres Hle']|(l1 & b & l2 & n & -> & Hres & Hb & Hn & Hlt & H1 & H2)].
      * left. split; [done|]. by apply sizesAll_cons_skip.
      * right. exists (c :: l1), b, l2, n.
        split_and!; [done|done|done|done|done| |done].
        by apply sizesAll_cons_skip.
Qed.

Lemma loop_none_qualifies fs : ∀ best bs,
  Forall (λ c, qualifies c = false) fs →
  getBestFavicon_loop fs best bs = best.
Proof.
  induction fs as [|c fs IH]; intros best bs Hall; [done|].
  inversion Hall; subst. rewrite loop_skip by done. by apply IH.
Qed.

Lemma loop_first_any l1 : ∀ a l2 best bs,
  qualifies a = true → sizeAny a →
  Forall (λ c, ¬ (qualifies c = true ∧ sizeAny c)) l1 →
  getBestFavicon_loop (l1 ++ a :: l2) best bs = Some a.
Proof.
  induction l1 as [|c l1 IH]; intros a l2 best bs Hq Hany Hall.
  - by apply loop_any.
  - inversion Hall as [|? ? Hc Hall']; subst. simpl app.
    destruct (qualifies c) eqn:Hqc.
    + destruct (numericSize c) as [m|] eqn:Hm.
      * rewrite (loop_numeric _ _ _ _ m Hqc Hm). destruct (Z.gtb m bs); by apply IH.
      * rewrite loop_sizeless; [|done|tauto|done]. destruct best; by apply IH.
    + rewrite loop_skip by done. by apply IH.
Qed.

(** ** Examples *)

Example split_rel : JS.split " " "shortcut icon" = ["shortcut"; "icon"].
Proof. reflexivity. Qed.

Example parseInt10_32 : JS.parseInt10 (JS.first (JS.split "x" "32x32")) = Some 32.
Proof. reflexivity. Qed.

Example parseInt10_NaN : JS.parseInt10 (JS.first (JS.split "x" "large")) = None.
Proof. reflexivity. Qed.

(** A no-break space (U+00A0, in UTF-8) before the digits is skipped. *)
Example parseInt10_nbsp :
  JS.parseInt10 (String "194"%char (String "160"%char "64")) = Some 64.
Proof. reflexivity. Qed.

(** Above [2 ^ 53] the parse is the nearest double. *)
Example parseInt10_rounds :
  JS.parseInt10 "9007199254740993" = Some 9007199254740992.
Proof. vm_compute. reflexivity. Qed.

(** The image loads the resolved URL: a relative [href] that begins with
    [data] is not a data URL. *)
Example drawFavicon_relative :
  images (snd (set env0 (VNumber 5) None (initial [link 1 "data.png" "icon" None])))
  = [mkImage (VNumber 5) defaultOptions "https://badgin.example/data.png"
       (Some "anonymous")].
Proof. vm_compute. reflexivity. Qed.

Example selectBest_scenario : getBestFavicon [icon32; icon16] = Some icon32.
Proof. vm_compute. reflexivity. Qed.

(** ** Selection *)

(** C1, as amended.  When every qualifying candidate carries a numeric size
    descriptor and one of them parses to a positive number, [selectBest]
    returns a candidate of the largest parsed value, and the first such in
    document order: those before it are strictly smaller, those after it are
    not larger.  The parsed value is the Number that [parseInt] gives. *)
Theorem selectBest_largest_first (fs : list Node) :
  sizesAll (λ _ _, True) 0 fs →
  (∃ c m, c ∈ fs ∧ qualifies c = true ∧ numericSize c = Some m ∧ 0 < m) →
  ∃ l1 b l2 n,
    fs = l1 ++ b :: l2
    ∧ selectBest fs = Some b
    ∧ qualifies b = true ∧ numericSize b = Some n
    ∧ sizesAll Z.lt n l1 ∧ sizesAll Z.le n l2.
Proof.
  intros Hall (c & m & Hc & Hq & Hm & Hpos).
  destruct (loop_numeric_spec fs None 0 Hall)
    as [[_ Hle]|(l1 & b & l2 & n & ? & ? & ? & ? & ? & ? & ?)].
  - destruct (Hle c Hc Hq) as (m' & Hm' & ?).
    rewrite Hm in Hm'. injection Hm' as <-. lia.
  - exists l1, b, l2, n. by split_and!.
Qed.

Ltac concrete_sizes :=
  let c := fresh "c" in
  let Hc := fresh "Hc" in
  intros c Hc _;
  repeat (apply elem_of_cons in Hc as [->|Hc]);
  try (by apply elem_of_nil in Hc);
  eexists; (split; [vm_compute; reflexivity | first [done | lia]]).

Lemma selectBest_largest_first_witness :
  ∃ l1 b l2 n,
    [icon0; icon16; icon32; icon16; icon32] = l1 ++ b :: l2
    ∧ selectBest [icon0; icon16; icon32; icon16; icon32] = Some b
    ∧ qualifies b = true ∧ numericSize b = Some n
    ∧ sizesAll Z.lt n l1 ∧ sizesAll Z.le n l2.
Proof.
  apply (selectBest_largest_first [icon0; icon16; icon32; icon16; icon32]).
  - concrete_sizes.
  - exists icon16, 16. split_and!; [right; left | vm_compute; reflexivity
                                   | vm_compute; reflexivity | lia].
Defined.

(** C1, as stated, fails: a single qualifying candidate of size [0x0]
    carries a numeric descriptor, and nothing is returned, since [bestSize]
    starts at [0] and only a strictly larger size is accepted. *)
Lemma selectBest_numeric_counterexample :
  ¬ ∀ fs : list Node,
      sizesAll (λ _ _, True) 0 fs →
      (∃ c, c ∈ fs ∧ qualifies c = true) →
      ∃ l1 b l2 n,
        fs = l1 ++ b :: l2
        ∧ selectBest fs = Some b
        ∧ qualifies b = true ∧ numericSize b = Some n
        ∧ sizesAll Z.lt n l1 ∧ sizesAll Z.le n l2.
Proof.
  intros H. destruct (H [icon0]) as (l1 & b & l2 & n & _ & Hbest & _).
  - intros c Hc _. apply list_elem_of_singleton in Hc as ->.
    exists 0. split; [vm_compute; reflexivity | done].
  - exists icon0. split; [left | vm_compute; reflexivity].
  - vm_compute in Hbest. discriminate.
Qed.

(** C2, as amended.  The first qualifying candidate whose size descriptor
    is [any] is returned, wherever it stands and whatever the other
    candidates are: the scan ends there, and what follows it, further [any]
    candidates included, is not read. *)
Theorem selectBest_any (l1 l2 : list Node) (a : Node) :
  qualifies a = true → sizeAny a →
  Forall (λ c, ¬ (qualifies c = true ∧ sizeAny c)) l1 →
  selectBest (l1 ++ a :: l2) = Some a.
Proof. intros. by apply loop_first_any. Qed.

Lemma selectBest_any_witness :
  selectBest ([icon32; stylesheet] ++ iconAny :: [icon16; iconAny]) = Some iconAny.
Proof.
  apply (selectBest_any [icon32; stylesheet] [icon16; iconAny] iconAny).
  - vm_compute. reflexivity.
  - vm_compute. reflexivity.
  - repeat constructor; intros [_ H]; vm_compute in H; discriminate.
Defined.

(** C2, as stated, fails: of two qualifying candidates whose size descriptor
    is [any], the second is in the list and is not returned. *)
Lemma selectBest_second_any_counterexample :
  ¬ ∀ (fs : list Node) (a : Node),
      a ∈ fs → qualifies a = true → sizeAny a → selectBest fs = Some a.
Proof.
  intros H. specialize (H [iconAny; iconAny'] iconAny').
  assert (selectBest [iconAny; iconAny'] = Some iconAny') as Hbad.
  { apply H; [right; left | vm_compute; reflexivity | vm_compute; reflexivity]. }
  vm_compute in Hbad. discriminate.
Qed.

(** ** Discovery *)

(** C8, as amended.  A link element of the head is returned by
    [getFavicons] if and only if its [href] is present and not empty and
    [icon] is one of the pieces of its [rel] between U+0020 characters; the
    result is the head filtered by that test, so it keeps document order. *)
Theorem getFavicons_qualifying (head : list Node) :
  getFavicons head
  = filter (λ n, qualifies n = true) (getElementsByTagName "link" head)
  ∧ ∀ n, n ∈ getFavicons head
         ↔ n ∈ head ∧ tagName n = "link" ∧ hasHref n ∧ hasIconToken n.
Proof.
  split; [apply getFavicons_filter|].
  intros n. rewrite getFavicons_filter. unfold getElementsByTagName.
  rewrite !list_elem_of_filter, qualifies_iff. tauto.
Qed.

(** C8, as stated, fails: with a tab between the tokens of [rel], [icon] is
    a white-space-separated token and the [href] is not empty, yet the
    element is not returned. *)
Lemma getFavicons_whitespace_counterexample :
  ¬ ∀ (head : list Node) (n : Node),
      n ∈ getFavicons head
      ↔ n ∈ head ∧ tagName n = "link" ∧ hasHref n ∧ hasIconWhitespaceToken n.
Proof.
  intros H. destruct (H [iconTab] iconTab) as [_ Hin].
  assert (iconTab ∈ getFavicons [iconTab]) as Hbad.
  { apply Hin. split_and!.
    - left.
    - reflexivity.
    - exists "e.png". split; [vm_compute; reflexivity | discriminate].
    - eexists. split; [vm_compute; reflexivity|].
      vm_compute. right. left. }
  vm_compute in Hbad. by apply elem_of_nil in Hbad.
Qed.

(** ** Badge text *)

Example finalValue_47 o : finalValue (VNumber 47) o = "47".
Proof. reflexivity. Qed.

Example finalValue_123 o : finalValue (VNumber 123) o = "99+".
Proof. reflexivity. Qed.

Example finalValue_false o : finalValue (VBoolean false) o = indicator o.
Proof. reflexivity. Qed.

Example finalValue_minus5 o : finalValue (VNumber (-5)) o = indicator o.
Proof. reflexivity. Qed.

(** C3.  The text computed by [drawBubble] is the empty string for [0], the
    decimal string for [1..99], ["99+"] from [100] on, and the indicator for
    a negative or non-numeric value; for [0] nothing at all is drawn, and
    otherwise the one text drawn is that text. *)
Theorem drawBubble_text (env : Env) (value : Value) (options : Options) :
  badgeText options value (finalValue value options)
  ∧ drawBubble env (VNumber 0) options = []
  ∧ textsDrawn (drawBubble env value options)
    = (if String.eqb (finalValue value options) "" then []
       else [finalValue value options]).
Proof.
  split_and!.
  - destruct value as [n| |]; try constructor.
    unfold finalValue, isPositiveNumber.
    destruct (Z.leb_spec 0 n); [|by constructor].
    destruct (Z.eqb_spec n 0) as [->|]; [constructor|].
    destruct (Z.ltb_spec n 100); constructor; lia.
  - reflexivity.
  - unfold drawBubble. by destruct (String.eqb _ _).
Qed.

(** ** The availability gate *)

Lemma isAvailable_eq env st :
  isAvailable env st
  = match context (prepared env st) with
    | Some _ => (bool_decide (is_Some (getBestFavicon (doc_head st))),
                 scanned (prepared env st))
    | None => (false, prepared env st)
    end.
Proof.
  unfold isAvailable, prepared, bind, gets, modify, ret, getBestFaviconM,
    getFaviconsM, bind, gets, modify, ret, getBestFavicon.
  destruct (context st) eqn:Hc; simpl; [by rewrite Hc|].
  by destruct (getContext2d env).
Qed.

Lemma isAvailable_true env st :
  fst (isAvailable env st) = true →
  is_Some (context (prepared env st)) ∧ is_Some (getBestFavicon (doc_head st)).
Proof.
  rewrite isAvailable_eq. destruct (context (prepared env st)); simpl; [|done].
  intros H%bool_decide_eq_true. eauto.
Qed.

(** C9.  When no link of the head qualifies, whether there is none or each
    is disqualified, [selectBest] returns none on that list, and
    [isAvailable()] returns [false]. *)
Theorem no_candidate_unavailable (env : Env) (st : State) (links : list Node) :
  getElementsByTagName "link" (doc_head st) = links →
  Forall (λ c, qualifies c = false) links →
  selectBest links = None
  ∧ getBestFavicon (doc_head st) = None
  ∧ fst (isAvailable env st) = false.
Proof.
  intros Hlinks Hall.
  assert (getBestFavicon (doc_head st) = None) as Hnone.
  { unfold getBestFavicon. rewrite getFavicons_filter, Hlinks.
    apply loop_none_qualifies. apply Forall_forall.
    intros c Hc%list_elem_of_filter. rewrite Forall_forall in Hall.
    apply Hall, Hc. }
  split_and!; [by apply loop_none_qualifies | done |].
  rewrite isAvailable_eq, Hnone.
  by destruct (context (prepared env st)).
Qed.

Lemma no_candidate_unavailable_witness :
  selectBest [stylesheet; link 6 "" "icon" None] = None
  ∧ getBestFavicon (doc_head (initial [stylesheet; link 6 "" "icon" None])) = None
  ∧ fst (isAvailable env0 (initial [stylesheet; link 6 "" "icon" None])) = false.
Proof.
  apply (no_candidate_unavailable env0
           (initial [stylesheet; link 6 "" "icon" None])
           [stylesheet; link 6 "" "icon" None]).
  - vm_compute. reflexivity.
  - repeat constructor.
Defined.

(** ** [set], step by step *)

Lemma set_eq env value options st :
  set env value options st
  = let gate := isAvailable env (recorded value options st) in
    if fst gate then (true, startLoad env (fillFavicons (fillBest (snd gate))))
    else (false, snd gate).
Proof.
  unfold set, bind at 1 2 3. unfold modify at 1, gets at 1, deepMerge, modify at 1.
  unfold bind at 1, recorded. simpl.
  destruct (isAvailable env _) as [[|] st2]; simpl; [|done].
  unfold bind, gets, modify, ret, fillBest, fillFavicons, startLoad, drawFavicon,
    getBestFaviconM, getFaviconsM, bind, gets, modify, ret, scanned, getBestFavicon.
  destruct (current_bestFavicon st2) eqn:Hb; simpl.
  - destruct (current_favicons st2) eqn:Hf; simpl; by rewrite ?Hb.
  - destruct (current_favicons st2) eqn:Hf; simpl;
      by destruct (selectBest (getFavicons (doc_head st2))).
Qed.

Lemma prepared_recorded env value options st :
  prepared env (recorded value options st) = recorded value options (prepared env st).
Proof.
  unfold prepared. change (context (recorded value options st)) with (context st).
  by destruct (context st).
Qed.

Lemma isAvailable_recorded env value options st :
  fst (isAvailable env (recorded value options st)) = fst (isAvailable env st).
Proof.
  rewrite !isAvailable_eq, prepared_recorded.
  change (context (recorded value options (prepared env st)))
    with (context (prepared env st)).
  by destruct (context (prepared env st)).
Qed.

(** C4, as amended.  When [isAvailable()] is false, [set] returns [false],
    leaves the head of the document, the snapshot, the chosen base and the
    loading images as they were, and starts no render; the value and the
    options, which are recorded before the gate is consulted, are the new
    ones. *)
Theorem set_unavailable (env : Env) (value : Value)
    (options : option PartialOptions) (st : State) :
  fst (isAvailable env st) = false →
  fst (set env value options st) = false
  ∧ doc_head (snd (set env value options st)) = doc_head st
  ∧ current_favicons (snd (set env value options st)) = current_favicons st
  ∧ current_bestFavicon (snd (set env value options st)) = current_bestFavicon st
  ∧ images (snd (set env value options st)) = images st
  ∧ current_value (snd (set env value options st)) = value
  ∧ current_options (snd (set env value options st)) = current_options st
  ∧ objects (snd (set env value options st))
    = alter (λ o, mergeInto o (default noOptions options))
            (current_options st) (objects st).
Proof.
  intros Hgate. rewrite set_eq. cbv zeta.
  rewrite isAvailable_recorded, Hgate. simpl.
  rewrite isAvailable_eq, prepared_recorded.
  change (context (recorded value options (prepared env st)))
    with (context (prepared env st)).
  unfold prepared.
  destruct (context st) eqn:Hc; simpl; rewrite ?Hc; simpl; [done|].
  by destruct (getContext2d env).
Qed.

Lemma set_unavailable_witness :
  fst (set env0 (VNumber 5) (Some (mkPartial None None (Some "?"))) (initial [stylesheet])) = false
  ∧ doc_head (snd (set env0 (VNumber 5) (Some (mkPartial None None (Some "?"))) (initial [stylesheet])))
    = doc_head (initial [stylesheet])
  ∧ current_favicons (snd (set env0 (VNumber 5) (Some (mkPartial None None (Some "?"))) (initial [stylesheet])))
    = current_favicons (initial [stylesheet])
  ∧ current_bestFavicon (snd (set env0 (VNumber 5) (Some (mkPartial None None (Some "?"))) (initial [stylesheet])))
    = current_bestFavicon (initial [stylesheet])
  ∧ images (snd (set env0 (VNumber 5) (Some (mkPartial None None (Some "?"))) (initial [stylesheet])))
    = images (initial [stylesheet])
  ∧ current_value (snd (set env0 (VNumber 5) (Some (mkPartial None None (Some "?"))) (initial [stylesheet])))
    = VNumber 5
  ∧ current_options (snd (set env0 (VNumber 5) (Some (mkPartial None None (Some "?"))) (initial [stylesheet])))
    = current_options (initial [stylesheet])
  ∧ objects (snd (set env0 (VNumber 5) (Some (mkPartial None None (Some "?"))) (initial [stylesheet])))
    = alter (λ o, mergeInto o (default noOptions (Some (mkPartial None None (Some "?")))))
            (current_options (initial [stylesheet])) (objects (initial [stylesheet])).
Proof.
  apply (set_unavailable env0 (VNumber 5) (Some (mkPartial None None (Some "?")))
           (initial [stylesheet])).
  vm_compute. reflexivity.
Defined.

(** C4, as stated, fails: on a page without an icon [set] returns [false]
    and yet the recorded value and the options object have changed. *)
Lemma set_unavailable_counterexample :
  ¬ ∀ (env : Env) (value : Value) (options : option PartialOptions) (st : State),
      fst (isAvailable env st) = false →
      fst (set env value options st) = false
      ∧ current_value (snd (set env value options st)) = current_value st
      ∧ objects (snd (set env value options st)) !! current_options st
        = objects st !! current_options st
      ∧ doc_head (snd (set env value options st)) = doc_head st.
Proof.
  intros H.
  destruct (H env0 (VNumber 5) (Some (mkPartial None None (Some "?")))
              (initial [stylesheet])) as (_ & Hvalue & Hoptions & _).
  - vm_compute. reflexivity.
  - vm_compute in Hvalue. discriminate.
Qed.

(** ** [setFavicon], the [onload] handler and [clear], step by step *)

Lemma setFavicon_eq url st :
  setFavicon url st = (tt, if String.eqb url "" then st else installed url st).
Proof. unfold setFavicon. by destruct (String.eqb url ""). Qed.

Lemma image_onload_eq env image width height st :
  image_onload env image width height st
  = (tt,
     match canvas st, context st, objects st !! img_options image with
     | Some _, Some drawn, Some options =>
         let drawn' := painted env image width height drawn options in
         let st' := with_canvas (canvas st) (Some drawn') st in
         if String.eqb (toDataURL env drawn') "" then st'
         else installed (toDataURL env drawn') st'
     | _, _, _ => st
     end).
Proof.
  unfold image_onload, bind at 1, gets at 1.
  destruct (canvas st) eqn:Hc; [|done].
  unfold bind at 1, gets at 1, bind at 1, gets at 1.
  destruct (context st) eqn:Hx; [|done].
  destruct (objects st !! img_options image) eqn:Ho; [|done].
  unfold bind, modify. rewrite setFavicon_eq. unfold painted. by rewrite Hc.
Qed.

Lemma clear_eq env st :
  clear env st
  = (tt,
     let gate := isAvailable env st in
     if fst gate then
       match current_favicons (snd gate) with
       | Some snapshot => restored snapshot (snd gate)
       | None => snd gate
       end
     else snd gate).
Proof.
  unfold clear, bind at 1.
  destruct (isAvailable env st) as [[|] st1]; simpl; [|done].
  unfold bind at 1, gets at 1.
  by destruct (current_favicons st1).
Qed.

Lemma step_eq env op st :
  step env op st
  = match op with
    | OpSet value options => snd (set env value options st)
    | OpClear => snd (clear env st)
    | OpIsAvailable => snd (isAvailable env st)
    | OpLoad k width height =>
        match images st !! k with
        | Some image =>
            snd (image_onload env image width height (with_images (delete k) st))
        | None => st
        end
    | OpHostRemove n => with_head (removeChild n) st
    end.
Proof. done. Qed.

Lemma run_cons env op ops st :
  run env (op :: ops) st = run env ops (step env op st).
Proof. done. Qed.

Lemma run_app env ops1 ops2 st :
  run env (ops1 ++ ops2) st = run env ops2 (run env ops1 st).
Proof. unfold run. by rewrite foldl_app. Qed.

(** ** Sessions *)

Lemma set_cached env value options st b fs :
  inSession b fs st →
  set env value options st
  = let available := bool_decide (is_Some (getBestFavicon (doc_head st))) in
    (available,
     if available then startLoad env (scanned (recorded value options st))
     else scanned (recorded value options st)).
Proof.
  intros [Hb Hf [drawn Hc]].
  rewrite set_eq, isAvailable_eq, prepared_recorded. unfold prepared. rewrite Hc.
  change (context (recorded value options st)) with (context st). rewrite Hc.
  change (doc_head (recorded value options st)) with (doc_head st).
  cbv zeta. destruct (bool_decide _); simpl; [|done].
  unfold fillBest. simpl. rewrite Hb.
  unfold fillFavicons. simpl. by rewrite Hf.
Qed.

Lemma set_true_inSession env value options st :
  fst (set env value options st) = true →
  ∃ b fs, inSession b fs (snd (set env value options st)).
Proof.
  rewrite set_eq. cbv zeta.
  destruct (fst (isAvailable env (recorded value options st))) eqn:Hgate; [|done].
  intros _. apply isAvailable_true in Hgate as [Hctx [b0 Hbest]].
  change (doc_head (recorded value options st)) with (doc_head st) in Hbest.
  simpl. rewrite isAvailable_eq.
  destruct (context (prepared env (recorded value options st))) as [drawn|] eqn:Hc;
    [|by destruct Hctx].
  simpl.
  assert (∀ st1 : State, is_Some (current_bestFavicon st1) →
            is_Some (context st1) →
            ∃ b fs, inSession b fs (startLoad env (fillFavicons st1))) as Hfill.
  { intros st1 [b Hb] Hx. unfold fillFavicons.
    destruct (current_favicons st1) as [fs|] eqn:Hf.
    - exists b, fs. unfold startLoad. rewrite Hb. by split.
    - exists b, (getFavicons (doc_head st1)). unfold startLoad. simpl. rewrite Hb.
      by split. }
  apply Hfill.
  - unfold fillBest.
    destruct (current_bestFavicon (scanned _)) eqn:Hb; [by rewrite Hb|].
    simpl. unfold prepared.
    change (context (recorded value options st)) with (context st).
    destruct (context st); simpl; by rewrite Hbest.
  - unfold fillBest.
    destruct (current_bestFavicon (scanned _)) eqn:Hb; simpl; by rewrite Hc.
Qed.

Lemma step_inSession env op st b fs :
  op ≠ OpClear → inSession b fs st → inSession b fs (step env op st).
Proof.
  intros Hop Hs. pose proof Hs as [Hb Hf [drawn Hc]].
  destruct op as [value options| | |k width height|n]; [| done | | |].
  - rewrite step_eq, (set_cached _ _ _ _ b fs Hs). cbv zeta.
    destruct (bool_decide _); simpl.
    + unfold startLoad. simpl. rewrite Hb. split; simpl; [done|done|by rewrite Hc].
    + split; simpl; [done|done|by rewrite Hc].
  - rewrite step_eq, isAvailable_eq. unfold prepared. rewrite Hc, Hc. simpl.
    split; simpl; [done|done|by rewrite Hc].
  - rewrite step_eq. destruct (images st !! k) as [image|]; [|done].
    rewrite image_onload_eq. simpl. rewrite Hc.
    destruct (canvas st); [|by split; simpl; rewrite ?Hc].
    destruct (objects st !! img_options image); [|by split; simpl; rewrite ?Hc].
    cbv zeta. destruct (String.eqb _ _); by split; simpl.
  - by split; simpl; rewrite ?Hc.
Qed.

Lemma run_inSession env ops : ∀ st b fs,
  Forall (λ op, op ≠ OpClear) ops →
  inSession b fs st → inSession b fs (run env ops st).
Proof.
  induction ops as [|op ops IH]; intros st b fs Hops Hs; [done|].
  inversion Hops; subst. rewrite run_cons. apply IH; [done|].
  by apply step_inSession.
Qed.

(** C5, as amended.  After a successful [set] and until the next [clear],
    whatever happens in between, a further [set] calls [getBestFavicon]
    once, from the availability gate, and nothing else scans the document:
    the cached base and snapshot are kept as they are. *)
Theorem set_reuses_cached_base (env : Env) (st0 : State)
    (value0 value : Value) (options0 options : option PartialOptions)
    (ops : list Op) :
  fst (set env value0 options0 st0) = true →
  Forall (λ op, op ≠ OpClear) ops →
  let st1 := snd (set env value0 options0 st0) in
  let st := run env ops st1 in
  let st' := snd (set env value options st) in
  is_Some (current_bestFavicon st1)
  ∧ current_bestFavicon st' = current_bestFavicon st1
  ∧ current_favicons st' = current_favicons st1
  ∧ calls st' = calls st ++ [CallGetBestFavicon; CallGetFavicons].
Proof.
  intros Hset Hops st1 st st'.
  destruct (set_true_inSession _ _ _ _ Hset) as (b & fs & Hs1).
  fold st1 in Hs1.
  pose proof (run_inSession env ops st1 b fs Hops Hs1) as Hs. fold st in Hs.
  pose proof Hs1 as [Hb1 Hf1 _]. pose proof Hs as [Hb Hf _].
  subst st'. rewrite (set_cached _ _ _ _ b fs Hs). cbv zeta.
  rewrite Hb1, Hf1. split; [done|].
  destruct (bool_decide _); simpl;
    [unfold startLoad; simpl; rewrite Hb; simpl|];
    by rewrite <- app_assoc.
Qed.

Lemma set_reuses_cached_base_witness :
  let st1 := snd (set env0 (VNumber 1) None (initial page)) in
  let st := run env0 [OpLoad 0 32 32; OpIsAvailable] st1 in
  let st' := snd (set env0 (VNumber 2) None st) in
  is_Some (current_bestFavicon st1)
  ∧ current_bestFavicon st' = current_bestFavicon st1
  ∧ current_favicons st' = current_favicons st1
  ∧ calls st' = calls st ++ [CallGetBestFavicon; CallGetFavicons].
Proof.
  apply (set_reuses_cached_base env0 (initial page) (VNumber 1) (VNumber 2) None None
           [OpLoad 0 32 32; OpIsAvailable]).
  - vm_compute. reflexivity.
  - repeat constructor; discriminate.
Defined.

(** C5, as stated, fails: the first successful [set] calls
    [getBestFavicon] twice, and the next [set] calls it again from
    [isAvailable], three calls where at most one is claimed. *)
Lemma set_rescans_counterexample :
  ¬ ∀ (env : Env) (st0 : State) (value0 value : Value)
      (options0 options : option PartialOptions),
      fst (set env value0 options0 st0) = true →
      let st1 := snd (set env value0 options0 st0) in
      let st' := snd (set env value options st1) in
      (count_occ Call_eq_dec (calls st') CallGetBestFavicon
       ≤ count_occ Call_eq_dec (calls st0) CallGetBestFavicon + 1)%nat.
Proof.
  intros H.
  specialize (H env0 (initial page) (VNumber 1) (VNumber 2) None None).
  assert (fst (set env0 (VNumber 1) None (initial page)) = true) as Hset
    by (vm_compute; reflexivity).
  specialize (H Hset). vm_compute in H.
  repeat (apply le_S_n in H). inversion H.
Qed.

(** ** Removing and appending icon links *)

Lemma removeAll_filter fs : ∀ h,
  removeAll fs h = filter (λ m, nid m ∉ nid <$> fs) h.
Proof.
  induction fs as [|f fs IH]; intros h.
  - simpl. induction h as [|m h IHh]; [done|].
    rewrite filter_cons_True by apply not_elem_of_nil. by rewrite <- IHh.
  - change (removeAll (f :: fs) h) with (removeAll fs (removeChild f h)).
    rewrite IH. unfold removeChild. rewrite list_filter_filter.
    apply list_filter_iff. intros m. simpl. rewrite not_elem_of_cons. tauto.
Qed.

Lemma appendAll_filter fs : ∀ h,
  NoDup (nid <$> fs) →
  appendAll fs h = filter (λ m, nid m ∉ nid <$> fs) h ++ fs.
Proof.
  induction fs as [|f fs IH]; intros h Hnd.
  - simpl. rewrite app_nil_r. induction h as [|m h IHh]; [done|].
    rewrite filter_cons_True by apply not_elem_of_nil. by rewrite <- IHh.
  - rewrite fmap_cons in Hnd. apply NoDup_cons in Hnd as [Hf Hnd].
    change (appendAll (f :: fs) h) with (appendAll fs (appendChild f h)).
    rewrite IH by done. unfold appendChild, removeChild.
    rewrite filter_app, list_filter_filter, filter_cons_True, filter_nil by done.
    rewrite <- app_assoc. simpl. f_equal.
    apply list_filter_iff. intros m. simpl. rewrite not_elem_of_cons. tauto.
Qed.

Lemma getFavicons_isIconLink h : getFavicons h = filter isIconLink h.
Proof.
  rewrite getFavicons_filter. unfold getElementsByTagName.
  rewrite list_filter_filter. apply list_filter_iff. unfold isIconLink. tauto.
Qed.

Lemma getFavicons_app h1 h2 : getFavicons (h1 ++ h2) = getFavicons h1 ++ getFavicons h2.
Proof. rewrite !getFavicons_isIconLink. apply filter_app. Qed.

Lemma getFavicons_all fs : Forall isIconLink fs → getFavicons fs = fs.
Proof.
  rewrite getFavicons_isIconLink. induction 1 as [|f fs Hf _ IH]; [done|].
  rewrite filter_cons_True by done. by rewrite IH.
Qed.

Lemma getFavicons_none h : (∀ m, m ∈ h → ¬ isIconLink m) → getFavicons h = [].
Proof.
  intros H. rewrite getFavicons_isIconLink. apply elem_of_nil_inv.
  intros m [Hm Hin]%list_elem_of_filter. by apply (H m).
Qed.

(** Once the links that [getFavicons] returns are removed, none is left,
    also after further removals. *)
Lemma getFavicons_removed (P : Node → Prop) `{!∀ m, Decision (P m)} h :
  getFavicons (filter P (removeAll (getFavicons h) h)) = [].
Proof.
  apply getFavicons_none. intros m [_ Hm]%list_elem_of_filter Hicon.
  rewrite removeAll_filter in Hm. apply list_elem_of_filter in Hm as [Hid Hin].
  apply Hid, list_elem_of_fmap. exists m. split; [done|].
  rewrite getFavicons_isIconLink. by apply list_elem_of_filter.
Qed.

(** ** [clear] *)

(** Making the canvas touches neither the document nor [current]. *)
Lemma prepared_frame env st :
  doc_head (prepared env st) = doc_head st
  ∧ nextId (prepared env st) = nextId st
  ∧ objects (prepared env st) = objects st
  ∧ current_favicons (prepared env st) = current_favicons st
  ∧ current_bestFavicon (prepared env st) = current_bestFavicon st
  ∧ current_value (prepared env st) = current_value st
  ∧ current_options (prepared env st) = current_options st
  ∧ images (prepared env st) = images st
  ∧ calls (prepared env st) = calls st.
Proof. unfold prepared. by destruct (context st). Qed.

(** C6, as amended.  When a snapshot exists and [isAvailable()] holds,
    [clear] removes the icon links of the head, appends the snapshotted
    elements in their order, so that the icon links of the head are the
    snapshot again, and forgets the snapshot and the chosen base.  In every
    other state, with no snapshot or with [isAvailable()] false, it leaves
    the document and [current] as they are.  The snapshot is, as
    [getFavicons] made it, a list of distinct icon links. *)
Theorem clear_restores (env : Env) (st : State) :
  let snapshot := default [] (current_favicons st) in
  NoDup (nid <$> snapshot) →
  Forall isIconLink snapshot →
  let st' := snd (clear env st) in
  if (bool_decide (is_Some (current_favicons st)) && fst (isAvailable env st))%bool
  then getFavicons (doc_head st') = snapshot
       ∧ doc_head st'
         = filter (λ m, nid m ∉ nid <$> snapshot)
             (removeAll (getFavicons (doc_head st)) (doc_head st)) ++ snapshot
       ∧ current_favicons st' = None
       ∧ current_bestFavicon st' = None
  else doc_head st' = doc_head st
       ∧ current_favicons st' = current_favicons st
       ∧ current_bestFavicon st' = current_bestFavicon st
       ∧ current_value st' = current_value st
       ∧ objects st' = objects st
       ∧ images st' = images st.
Proof.
  intros snapshot Hnd Hicons st'. subst st'. rewrite clear_eq. cbv zeta.
  destruct (prepared_frame env st) as (Hh & _ & Ho & Hf & Hb & Hv & _ & Hi & _).
  rewrite isAvailable_eq.
  destruct (context (prepared env st)) eqn:Hc; simpl.
  - destruct (bool_decide (is_Some (getBestFavicon (doc_head st)))); simpl.
    + rewrite Hf. subst snapshot.
      destruct (current_favicons st) as [fs|] eqn:Hfs; simpl in *.
      * rewrite Hh, appendAll_filter by done. split_and!; try done.
        rewrite getFavicons_app, getFavicons_removed, getFavicons_all by done.
        done.
      * by rewrite ?Hh, ?Hf, ?Hb, ?Hv, ?Ho, ?Hi, ?Hfs.
    + rewrite andb_false_r. by rewrite Hh, Hf, Hb, Hv, Ho, Hi.
  - rewrite andb_false_r. by rewrite Hh, Hf, Hb, Hv, Ho, Hi.
Qed.

(** Decidable facts about concrete documents, by evaluation. *)
Ltac by_evaluation :=
  match goal with
  | |- ?P => apply (bool_decide_unpack P); vm_compute; exact I
  end.

Example badged_single_icon :
  getFavicons (doc_head badged)
  = [newFavicon 2 "data:image/png;base64,26"].
Proof. vm_compute. reflexivity. Qed.

Example badged_text :
  textsDrawn (default [] (context badged)) = ["5"].
Proof. vm_compute. reflexivity. Qed.

Lemma clear_restores_witness :
  getFavicons (doc_head (snd (clear env0 badged))) = page
  ∧ doc_head (snd (clear env0 badged)) = page
  ∧ current_favicons (snd (clear env0 badged)) = None
  ∧ current_bestFavicon (snd (clear env0 badged)) = None.
Proof.
  assert (NoDup (nid <$> default [] (current_favicons badged))) as Hnd
    by by_evaluation.
  assert (Forall isIconLink (default [] (current_favicons badged))) as Hicons
    by by_evaluation.
  pose proof (clear_restores env0 badged Hnd Hicons) as H.
  vm_compute in H. vm_compute. exact H.
Defined.

(** C6, as stated, fails: with a snapshot but no icon link left in the
    head, [isAvailable()] is false and [clear] returns at once; nothing is
    restored and the snapshot is kept. *)
Lemma clear_unavailable_counterexample :
  ¬ ∀ (env : Env) (st : State) (snapshot : list Favicon),
      current_favicons st = Some snapshot →
      NoDup (nid <$> snapshot) →
      Forall isIconLink snapshot →
      getFavicons (doc_head (snd (clear env st))) = snapshot
      ∧ current_favicons (snd (clear env st)) = None
      ∧ current_bestFavicon (snd (clear env st)) = None.
Proof.
  intros H. destruct (H env0 iconsGone page) as (Hrestored & _).
  - vm_compute. reflexivity.
  - by_evaluation.
  - by_evaluation.
  - vm_compute in Hrestored. discriminate.
Qed.

(** ** The snapshot in reachable states *)

Lemma NoDup_ids_filter (P : Node → Prop) `{!∀ m, Decision (P m)} (l : list Node) :
  NoDup (nid <$> l) → NoDup (nid <$> filter P l).
Proof.
  induction l as [|m l IH]; [done|].
  rewrite fmap_cons, NoDup_cons. intros [Hm Hl]. rewrite filter_cons.
  destruct (decide (P m)); [|by apply IH].
  rewrite fmap_cons, NoDup_cons. split; [|by apply IH].
  intros (m' & Hid & [_ Hin]%list_elem_of_filter)%list_elem_of_fmap.
  apply Hm, list_elem_of_fmap. by exists m'.
Qed.

Lemma docState_frame st st' :
  doc_head st' = doc_head st → nextId st' = nextId st →
  current_favicons st' = current_favicons st →
  docState st → docState st'.
Proof. intros Hh Hn Hf [H1 H2 H3]. split; rewrite ?Hh, ?Hn, ?Hf; done. Qed.

Lemma docState_initial children :
  NoDup (nid <$> children) → docState (initial children).
Proof.
  intros Hnd. split; simpl; [done| |done].
  intros m Hm. apply Nat.lt_succ_r, max_list_elem_of_le.
  by apply list_elem_of_fmap_2.
Qed.

Lemma docState_snapshot st :
  docState st →
  docState (with_favicons (Some (getFavicons (doc_head st))) st).
Proof.
  intros [H1 H2 H3]. split; simpl; [done|done|].
  intros fs [= <-]. rewrite getFavicons_isIconLink. split_and!.
  - by apply NoDup_ids_filter.
  - apply Forall_forall. by intros m [Hm _]%list_elem_of_filter.
  - intros m [_ Hm]%list_elem_of_filter. by apply H2.
Qed.

Lemma set_document env value options st :
  doc_head (snd (set env value options st)) = doc_head st
  ∧ nextId (snd (set env value options st)) = nextId st
  ∧ (current_favicons (snd (set env value options st)) = current_favicons st
     ∨ current_favicons (snd (set env value options st))
       = Some (getFavicons (doc_head st))).
Proof.
  rewrite set_eq, isAvailable_eq. cbv zeta.
  unfold startLoad, fillFavicons, fillBest, prepared.
  repeat (case_match; simpl in *); auto.
Qed.

Lemma docState_set env value options st :
  docState st → docState (snd (set env value options st)).
Proof.
  intros Hdoc. destruct (set_document env value options st) as (Hh & Hn & [Hf|Hf]).
  - revert Hdoc. by apply docState_frame.
  - apply docState_snapshot in Hdoc. revert Hdoc. by apply docState_frame.
Qed.

Lemma docState_isAvailable env st :
  docState st → docState (snd (isAvailable env st)).
Proof.
  rewrite isAvailable_eq.
  destruct (prepared_frame env st) as (Hh & Hn & _ & Hf & _).
  destruct (context (prepared env st)); simpl; by apply docState_frame.
Qed.

Lemma docState_installed url st : docState st → docState (installed url st).
Proof.
  intros [H1 H2 H3]. split; simpl.
  - unfold appendChild, removeChild. rewrite removeAll_filter, fmap_app.
    apply NoDup_app. split_and!.
    + by do 2 apply NoDup_ids_filter.
    + intros i (m & -> & [Hne _]%list_elem_of_filter)%list_elem_of_fmap.
      simpl. by intros Heq%list_elem_of_singleton.
    + apply NoDup_singleton.
  - unfold appendChild, removeChild. rewrite removeAll_filter.
    intros m [[_ [_ Hm]%list_elem_of_filter]%list_elem_of_filter
             | ->%list_elem_of_singleton]%elem_of_app.
    + apply H2 in Hm. lia.
    + simpl. lia.
  - intros fs Hfs. destruct (H3 fs Hfs) as (? & ? & Hlt). split_and!; [done|done|].
    intros m Hm. apply Hlt in Hm. lia.
Qed.

Lemma docState_restored fs st :
  current_favicons st = Some fs → docState st → docState (restored fs st).
Proof.
  intros Hfs [H1 H2 H3]. destruct (H3 fs Hfs) as (Hnd & _ & Hlt).
  split; simpl; [| |done].
  - rewrite appendAll_filter, removeAll_filter, fmap_app by done.
    apply NoDup_app. split_and!; [by do 2 apply NoDup_ids_filter | | done].
    by intros i (m & -> & [Hne _]%list_elem_of_filter)%list_elem_of_fmap.
  - rewrite appendAll_filter, removeAll_filter by done.
    intros m [[_ [_ Hm]%list_elem_of_filter]%list_elem_of_filter|Hm]%elem_of_app;
      [by apply H2 | by apply Hlt].
Qed.

Lemma docState_clear env st : docState st → docState (snd (clear env st)).
Proof.
  intros Hdoc%(docState_isAvailable env). rewrite clear_eq. cbv zeta.
  destruct (fst (isAvailable env st)); [|done].
  destruct (current_favicons _) as [fs|] eqn:Hfs; [|done].
  apply docState_restored; [|done]. by rewrite <- Hfs.
Qed.

Lemma docState_onload env image width height st :
  docState st → docState (snd (image_onload env image width height st)).
Proof.
  intros Hdoc. rewrite image_onload_eq. simpl.
  destruct (canvas st); [|done]. destruct (context st); [|done].
  destruct (objects st !! img_options image); [|done]. cbv zeta.
  destruct (String.eqb _ _); [by revert Hdoc; apply docState_frame|].
  apply docState_installed. revert Hdoc. by apply docState_frame.
Qed.

Lemma docState_step env op st : docState st → docState (step env op st).
Proof.
  intros Hdoc. destruct op as [value options| | |k width height|n]; rewrite step_eq.
  - by apply docState_set.
  - by apply docState_clear.
  - by apply docState_isAvailable.
  - destruct (images st !! k); [|done].
    apply docState_onload. revert Hdoc. by apply docState_frame.
  - destruct Hdoc as [H1 H2 H3]. split; simpl; [|by intros m [_ ?]%list_elem_of_filter; apply H2|done].
    by apply NoDup_ids_filter.
Qed.

Lemma docState_run env ops : ∀ st, docState st → docState (run env ops st).
Proof.
  induction ops as [|op ops IH]; intros st Hdoc; [done|].
  rewrite run_cons. by apply IH, docState_step.
Qed.

(** On a page whose elements are distinct, the snapshot of every state the
    module reaches is a list of distinct icon links, as [clear] expects. *)
Lemma reachable_snapshot env children ops fs :
  NoDup (nid <$> children) →
  current_favicons (run env ops (initial children)) = Some fs →
  NoDup (nid <$> fs) ∧ Forall isIconLink fs.
Proof.
  intros Hnd Hfs.
  destruct (docState_run env ops _ (docState_initial _ Hnd)) as [_ _ H3].
  destruct (H3 fs Hfs) as (? & ? & _). by split.
Qed.

(** ** Invariants of the module state *)

Lemma wfState_frame st st' :
  context st' = context st → canvas st' = canvas st → images st' = images st →
  current_options st' = current_options st → objects st' = objects st →
  wfState st → wfState st'.
Proof.
  intros Hx Hc Hi Ho Hobj [H1 H2 H3 H4].
  split; rewrite ?Hx, ?Hc, ?Hi, ?Ho, ?Hobj; done.
Qed.

Lemma wfState_initial children : wfState (initial children).
Proof.
  split; simpl; [by intros [? ?] | | done | by eexists].
  intros img Himg. by apply elem_of_nil in Himg.
Qed.

Lemma wfState_recorded value options st : wfState st → wfState (recorded value options st).
Proof.
  intros [H1 H2 H3 H4]. split; simpl; [done|done|done|].
  rewrite lookup_alter. case_decide; [|done].
  destruct H4 as [o Ho]. rewrite H3, Ho. by eexists.
Qed.

Lemma wfState_prepared env st : wfState st → wfState (prepared env st).
Proof.
  intros [H1 H2 H3 H4]. unfold prepared.
  destruct (context st) eqn:Hc; [by split; rewrite ?Hc|].
  split; simpl; [by eexists| |done|done].
  intros img Himg. destruct (H2 img Himg) as [[? Hx] _]. congruence.
Qed.

Lemma wfState_startLoad env st :
  is_Some (context st) → wfState st → wfState (startLoad env st).
Proof.
  intros Hx [H1 H2 H3 H4]. unfold startLoad.
  destruct (current_bestFavicon st); [|done].
  split; simpl; [done| |done|done].
  intros img [Himg| ->%list_elem_of_singleton]%elem_of_app; [by apply H2|].
  by split.
Qed.

Lemma wfState_installed url st : wfState st → wfState (installed url st).
Proof. by apply wfState_frame. Qed.

Lemma wfState_set env value options st :
  wfState st → wfState (snd (set env value options st)).
Proof.
  intros Hwf. rewrite set_eq. cbv zeta.
  pose proof (wfState_prepared env _ (wfState_recorded value options st Hwf)) as Hp.
  destruct (fst (isAvailable env (recorded value options st))) eqn:Hgate.
  - apply isAvailable_true in Hgate as [Hctx _].
    rewrite isAvailable_eq.
    destruct (context (prepared env (recorded value options st))) eqn:Hc;
      [|by destruct Hctx].
    simpl. apply wfState_startLoad.
    + unfold fillFavicons, fillBest.
      repeat (case_match; simpl); by rewrite Hc.
    + revert Hp. apply wfState_frame;
        unfold fillFavicons, fillBest; by repeat (case_match; simpl).
  - simpl. rewrite isAvailable_eq.
    destruct (context (prepared env (recorded value options st))); [|done].
    simpl. revert Hp. by apply wfState_frame.
Qed.

Lemma wfState_isAvailable env st : wfState st → wfState (snd (isAvailable env st)).
Proof.
  intros Hwf%(wfState_prepared env). rewrite isAvailable_eq.
  destruct (context (prepared env st)); [|done].
  simpl. revert Hwf. by apply wfState_frame.
Qed.

Lemma wfState_clear env st : wfState st → wfState (snd (clear env st)).
Proof.
  intros Hwf%(wfState_isAvailable env). rewrite clear_eq. cbv zeta.
  destruct (fst (isAvailable env st)); [|done].
  destruct (current_favicons _); [|done].
  simpl. revert Hwf. by apply wfState_frame.
Qed.

Lemma wfState_loading k st : wfState st → wfState (with_images (delete k) st).
Proof.
  intros [H1 H2 H3 H4]. split; simpl; [done| |done|done].
  intros img Himg. by eapply H2, list_elem_of_delete_inv.
Qed.

Lemma wfState_onload env image width height st :
  wfState st → wfState (snd (image_onload env image width height st)).
Proof.
  intros Hwf. rewrite image_onload_eq. simpl.
  destruct (canvas st) eqn:Hc; [|done].
  destruct (context st) eqn:Hx; [|done].
  destruct (objects st !! img_options image); [|done].
  cbv zeta.
  assert (wfState (with_canvas (canvas st)
                     (Some (painted env image width height l o)) st)) as Hwf'.
  { destruct Hwf as [H1 H2 H3 H4]. split; simpl; [by rewrite Hc| |done|done].
    intros img Himg. split; [by eexists|by apply H2]. }
  rewrite Hc in Hwf'.
  destruct (String.eqb _ _); [done|]. by apply wfState_installed.
Qed.

Lemma wfState_step env op st : wfState st → wfState (step env op st).
Proof.
  intros Hwf. destruct op as [value options| | |k width height|n]; rewrite step_eq.
  - by apply wfState_set.
  - by apply wfState_clear.
  - by apply wfState_isAvailable.
  - destruct (images st !! k); [|done].
    by apply wfState_onload, wfState_loading.
  - revert Hwf. by apply wfState_frame.
Qed.

Lemma wfState_run env ops : ∀ st, wfState st → wfState (run env ops st).
Proof.
  induction ops as [|op ops IH]; intros st Hwf; [done|].
  rewrite run_cons. by apply IH, wfState_step.
Qed.

(** ** Installing the badge *)

Lemma newFavicon_isIconLink id url : url ≠ "" → isIconLink (newFavicon id url).
Proof.
  intros Hurl. split; [done|]. unfold qualifies, newFavicon, getAttribute. simpl.
  rewrite lookup_insert_eq, lookup_insert_ne, lookup_insert_eq by done. simpl.
  destruct (String.eqb_spec url ""); done.
Qed.

Lemma installed_single_icon url st :
  url ≠ "" →
  getFavicons (doc_head (installed url st)) = [newFavicon (nextId st) url].
Proof.
  intros Hurl. simpl. unfold appendChild, removeChild.
  rewrite getFavicons_app, getFavicons_removed.
  apply getFavicons_all. constructor; [|done]. by apply newFavicon_isIconLink.
Qed.

Lemma onload_single_icon env image width height st :
  (∀ drawn, toDataURL env drawn ≠ "") →
  is_Some (canvas st) → is_Some (context st) →
  is_Some (objects st !! img_options image) →
  ∃ url, getFavicons (doc_head (snd (image_onload env image width height st)))
         = [newFavicon (nextId st) url].
Proof.
  intros Hurl [c Hc] [drawn Hx] [o Ho]. rewrite image_onload_eq. simpl.
  rewrite Hc, Hx, Ho. cbv zeta.
  exists (toDataURL env (painted env image width height drawn o)).
  destruct (String.eqb_spec (toDataURL env (painted env image width height drawn o)) "")
    as [Heq|Hne]; [exfalso; by eapply Hurl|].
  by rewrite installed_single_icon.
Qed.

Lemma startLoad_bestFavicon env st :
  current_bestFavicon (startLoad env st) = current_bestFavicon st.
Proof. unfold startLoad. by destruct (current_bestFavicon st) eqn:Hb. Qed.

Lemma set_true_starts_render env value options st :
  fst (set env value options st) = true →
  ∃ img, images (snd (set env value options st)) = images st ++ [img]
         ∧ img_value img = value.
Proof.
  intros Hset. destruct (set_true_inSession _ _ _ _ Hset) as (b & fs & [Hb _ _]).
  revert Hset Hb. rewrite set_eq. cbv zeta.
  destruct (fst (isAvailable env (recorded value options st))); [|done].
  simpl. intros _. rewrite startLoad_bestFavicon. intros Hb.
  unfold startLoad. rewrite Hb. simpl.
  destruct (prepared_frame env (recorded value options st))
    as (_ & _ & _ & _ & _ & Hv & _ & Hi & _).
  eexists. split.
  - f_equal. unfold fillFavicons, fillBest. rewrite isAvailable_eq.
    repeat (case_match; simpl); done.
  - simpl. unfold fillFavicons, fillBest. rewrite isAvailable_eq.
    repeat (case_match; simpl); done.
Qed.

(** C7, as amended.  After a successful [set] its render is under way, and
    whenever a render completes, whatever the head held before and whatever
    calls were made, the head holds exactly one link that [getFavicons]
    returns, the freshly created one: the installation removes every link
    that [getFavicons] returns and appends a single new one.  The canvas
    serialises to a data URL, which is not empty. *)
Theorem render_leaves_single_icon (env : Env) (children : list Node)
    (ops1 ops2 : list Op) (value : Value) (options : option PartialOptions)
    (k : nat) (width height : Z) :
  (∀ drawn, toDataURL env drawn ≠ "") →
  let st := run env ops1 (initial children) in
  fst (set env value options st) = true →
  let st1 := snd (set env value options st) in
  let st2 := run env ops2 st1 in
  (k < length (images st2))%nat →
  (∃ img, images st1 = images st ++ [img] ∧ img_value img = value)
  ∧ ∃ url, getFavicons (doc_head (step env (OpLoad k width height) st2))
           = [newFavicon (nextId st2) url].
Proof.
  intros Hurl st Hset st1 st2 Hk.
  split; [by apply set_true_starts_render|].
  assert (wfState st2) as Hwf.
  { apply wfState_run, wfState_set, wfState_run, wfState_initial. }
  rewrite step_eq.
  destruct (lookup_lt_is_Some_2 _ _ Hk) as [img Himg]. rewrite Himg.
  destruct Hwf as [H1 H2 H3 H4].
  destruct (H2 img) as [Hx Himgo]; [by eapply list_elem_of_lookup_2|].
  destruct (onload_single_icon env img width height (with_images (delete k) st2))
    as [url Hsingle]; simpl; [done|by apply H1|done|by rewrite Himgo|].
  by exists url.
Qed.

Lemma render_leaves_single_icon_witness :
  (∃ img, images (snd (set env0 (VNumber 7) None (run env0 [OpSet (VNumber 5) None] (initial page))))
          = images (run env0 [OpSet (VNumber 5) None] (initial page)) ++ [img]
          ∧ img_value img = VNumber 7)
  ∧ ∃ url,
      getFavicons
        (doc_head
           (step env0 (OpLoad 0 32 32)
              (run env0 [OpLoad 0 32 32]
                 (snd (set env0 (VNumber 7) None
                         (run env0 [OpSet (VNumber 5) None] (initial page)))))))
      = [newFavicon
           (nextId (run env0 [OpLoad 0 32 32]
                      (snd (set env0 (VNumber 7) None
                              (run env0 [OpSet (VNumber 5) None] (initial page))))))
           url].
Proof.
  apply (render_leaves_single_icon env0 page [OpSet (VNumber 5) None] [OpLoad 0 32 32]
           (VNumber 7) None 0 32 32).
  - intros drawn. simpl. discriminate.
  - vm_compute. reflexivity.
  - vm_compute. lia.
Defined.

(** C7, as stated, fails: a link whose [rel] has a tab between its tokens is
    an icon link in the words of the specification, [getFavicons] does not
    return it, and the installation leaves it in the head beside the new
    link. *)
Lemma render_leaves_tab_icon_counterexample :
  ¬ ∀ (env : Env) (children : list Node) (ops1 ops2 : list Op) (value : Value)
      (options : option PartialOptions) (k : nat) (width height : Z),
      (∀ drawn, toDataURL env drawn ≠ "") →
      let st := run env ops1 (initial children) in
      fst (set env value options st) = true →
      let st2 := run env ops2 (snd (set env value options st)) in
      (k < length (images st2))%nat →
      ∃ l, ∀ n, n ∈ doc_head (step env (OpLoad k width height) st2)
                ∧ iconLinkAsSpecified n
                ↔ n = l.
Proof.
  intros H.
  destruct (H env0 [iconTab; icon32] [] [] (VNumber 5) None 0%nat 32 32)
    as [l Hl].
  - intros drawn. simpl. discriminate.
  - vm_compute. reflexivity.
  - vm_compute. lia.
  - assert (doc_head
              (step env0 (OpLoad 0 32 32)
                 (run env0 []
                    (snd (set env0 (VNumber 5) None
                            (run env0 [] (initial [iconTab; icon32]))))))
            = [iconTab; newFavicon 5 "data:image/png;base64,26"]) as Hhead
      by (vm_compute; reflexivity).
    rewrite Hhead in Hl.
    assert (iconTab = l) as Htab.
    { apply Hl. split; [left|]. split_and!.
      - reflexivity.
      - exists "e.png". split; [vm_compute; reflexivity | discriminate].
      - eexists. split; [vm_compute; reflexivity|].
        vm_compute. right. left. }
    assert (newFavicon 5 "data:image/png;base64,26" = l) as Hnew.
    { apply Hl. split; [right; left|]. split_and!.
      - reflexivity.
      - eexists. split; [vm_compute; reflexivity | discriminate].
      - eexists. split; [vm_compute; reflexivity|].
        vm_compute. left. }
    rewrite <- Hnew in Htab. apply (f_equal nid) in Htab.
    vm_compute in Htab. discriminate.
Qed.

(** ** The gate while a snapshot is held *)

Lemma getBestFavicon_installed url st :
  url ≠ "" →
  getBestFavicon (doc_head (installed url st)) = Some (newFavicon (nextId st) url).
Proof.
  intros Hurl. unfold getBestFavicon. rewrite installed_single_icon by done.
  unfold selectBest. rewrite loop_sizeless; [done| | |].
  - by apply newFavicon_isIconLink.
  - unfold sizeAny, newFavicon, getAttribute. simpl.
    by rewrite !lookup_insert_ne, lookup_singleton_ne.
  - unfold numericSize, newFavicon, getAttribute. simpl.
    by rewrite !lookup_insert_ne, lookup_singleton_ne.
Qed.

Lemma snapshotAvailable_set env value options st :
  snapshotAvailable st → snapshotAvailable (snd (set env value options st)).
Proof.
  unfold snapshotAvailable. intros Hs.
  destruct (set_document env value options st) as (Hh & _ & Hf).
  rewrite Hh. destruct (fst (set env value options st)) eqn:Hset.
  - intros _. revert Hset. rewrite set_eq. cbv zeta.
    destruct (fst (isAvailable env (recorded value options st))) eqn:Hgate; [|done].
    intros _. apply isAvailable_true in Hgate as [Hctx Hbest].
    split; [|done]. simpl. rewrite isAvailable_eq.
    destruct (context (prepared env (recorded value options st))) eqn:Hc;
      [|by destruct Hctx].
    unfold startLoad, fillFavicons, fillBest.
    repeat (case_match; simpl in * ); by rewrite Hc.
  - revert Hset Hf. rewrite set_eq. cbv zeta.
    destruct (fst (isAvailable env (recorded value options st))) eqn:Hgate; [done|].
    simpl. intros _. rewrite isAvailable_eq.
    destruct (prepared_frame env (recorded value options st))
      as (_ & _ & _ & Hf' & _).
    assert (is_Some (context st) → is_Some (context (prepared env (recorded value options st))))
      as Hmono.
    { intros [x Hx]. unfold prepared.
      change (context (recorded value options st)) with (context st). by rewrite Hx. }
    destruct (context (prepared env (recorded value options st))) eqn:Hc; simpl.
    + rewrite Hf'. intros _ Hsome. split; [by rewrite Hc|]. by apply Hs.
    + rewrite Hf'. intros _ Hsome. destruct (Hs Hsome) as [Hx ?].
      apply Hmono in Hx. by destruct Hx.
Qed.

Lemma snapshotAvailable_isAvailable env st :
  snapshotAvailable st → snapshotAvailable (snd (isAvailable env st)).
Proof.
  unfold snapshotAvailable. intros Hs. rewrite isAvailable_eq.
  destruct (prepared_frame env st) as (Hh & _ & _ & Hf & _).
  assert (is_Some (context st) → is_Some (context (prepared env st))) as Hmono.
  { intros [x Hx]. unfold prepared. by rewrite Hx. }
  destruct (context (prepared env st)) eqn:Hc; simpl; rewrite ?Hh, ?Hf, ?Hc;
    intros Hsome; destruct (Hs Hsome) as [Hx ?]; [done|].
  apply Hmono in Hx. by destruct Hx.
Qed.

Lemma snapshotAvailable_clear env st :
  snapshotAvailable st → snapshotAvailable (snd (clear env st)).
Proof.
  intros Hs%(snapshotAvailable_isAvailable env). rewrite clear_eq. cbv zeta.
  destruct (fst (isAvailable env st)); [|done].
  destruct (current_favicons _) eqn:Hf; [|done].
  unfold snapshotAvailable. simpl. by intros [? ?].
Qed.

Lemma snapshotAvailable_onload env image width height st :
  snapshotAvailable st →
  snapshotAvailable (snd (image_onload env image width height st)).
Proof.
  unfold snapshotAvailable. intros Hs. rewrite image_onload_eq. simpl.
  destruct (canvas st) as [c|]; [|done].
  destruct (context st) as [drawn|] eqn:Hx; [|by rewrite Hx].
  destruct (objects st !! img_options image) as [o|]; [|by rewrite Hx].
  cbv zeta.
  destruct (String.eqb_spec (toDataURL env (painted env image width height drawn o)) "")
    as [_|Hurl].
  - simpl. intros Hsome. split; [done|]. by apply Hs.
  - intros _. split; [done|]. by rewrite getBestFavicon_installed.
Qed.

(** As long as the host page leaves the head alone, [isAvailable()] holds
    in every state in which a snapshot is held: the guard of [clear] matters
    only once the host has removed the icon links. *)
Lemma reachable_snapshot_available env children ops :
  Forall (λ op, ∀ n, op ≠ OpHostRemove n) ops →
  snapshotAvailable (run env ops (initial children)).
Proof.
  assert (snapshotAvailable (initial children)) as Hinit by (by intros [? ?]).
  revert Hinit. generalize (initial children).
  induction ops as [|op ops IH]; intros st Hs Hops; [done|].
  inversion Hops as [|? ? Hop Hops']; subst. rewrite run_cons.
  apply IH; [|done]. rewrite step_eq.
  destruct op as [value options| | |k width height|n].
  - by apply snapshotAvailable_set.
  - by apply snapshotAvailable_clear.
  - by apply snapshotAvailable_isAvailable.
  - destruct (images st !! k); [|done]. by apply snapshotAvailable_onload.
  - by destruct (Hop n).
Qed.

(** ** The options object *)

Lemma field_mergeInto key o p :
  field key (mergeInto o p) = default (field key o) (partialField key p).
Proof. by destruct key. Qed.

Lemma objects_isAvailable env st : objects (snd (isAvailable env st)) = objects st.
Proof.
  rewrite isAvailable_eq.
  destruct (prepared_frame env st) as (_ & _ & Ho & _).
  by destruct (context (prepared env st)).
Qed.

Lemma objects_set env value options st :
  objects (snd (set env value options st))
  = alter (λ o, mergeInto o (default noOptions options)) (current_options st) (objects st).
Proof.
  rewrite set_eq. cbv zeta.
  etransitivity; [|apply (objects_isAvailable env (recorded value options st))].
  destruct (fst (isAvailable env (recorded value options st))); simpl; [|done].
  unfold startLoad, fillFavicons, fillBest.
  by repeat (case_match; simpl).
Qed.

Lemma objects_clear env st : objects (snd (clear env st)) = objects st.
Proof.
  rewrite clear_eq. cbv zeta. pose proof (objects_isAvailable env st) as Ho.
  destruct (fst (isAvailable env st)); [|done].
  by destruct (current_favicons _).
Qed.

Lemma objects_onload env image width height st :
  objects (snd (image_onload env image width height st)) = objects st.
Proof. rewrite image_onload_eq. simpl. by repeat (case_match; simpl). Qed.

Lemma exportedDefault_step env key op st :
  wfState st →
  exportedDefault key (step env op st)
  = match op with
    | OpSet _ options =>
        match partialField key (default noOptions options) with
        | Some x => Some x
        | None => exportedDefault key st
        end
    | _ => exportedDefault key st
    end.
Proof.
  intros [_ _ Hopt [o Ho]]. unfold exportedDefault. rewrite step_eq.
  destruct op as [value options| | |k width height|n].
  - rewrite objects_set, Hopt, lookup_alter, decide_True, Ho by done. simpl.
    rewrite field_mergeInto. by destruct (partialField key _).
  - by rewrite objects_clear.
  - by rewrite objects_isAvailable.
  - destruct (images st !! k); [|done]. by rewrite objects_onload.
  - done.
Qed.

Lemma exportedDefault_kept env key x ops : ∀ st,
  wfState st →
  Forall (λ op, ¬ writes key op) ops →
  exportedDefault key st = Some x →
  exportedDefault key (run env ops st) = Some x.
Proof.
  induction ops as [|op ops IH]; intros st Hwf Hops Hx; [done|].
  inversion Hops as [|? ? Hop Hops']; subst. rewrite run_cons.
  apply IH; [by apply wfState_step|done|].
  rewrite exportedDefault_step by done.
  destruct op as [value [q|]| | | |]; try done.
  - simpl in *. destruct (partialField key q); [|done].
    exfalso. apply Hop. by eexists.
  - by destruct key.
Qed.

(** C10.  [current.options] is the object bound to [defaultOptions], at
    every moment; so a key passed to [set] is written into the exported
    defaults, and stays as written through [clear] and every later call
    that does not pass that key again: nothing restores the documented
    value. *)
Theorem set_overwrites_defaultOptions (env : Env) (children : list Node)
    (ops1 ops2 : list Op) (value : Value) (p : PartialOptions)
    (key : Key) (x : string) :
  partialField key p = Some x →
  Forall (λ op, ¬ writes key op) ops2 →
  let st := run env (ops1 ++ OpSet value (Some p) :: ops2) (initial children) in
  current_options st = defaultOptions
  ∧ exportedDefault key (initial children) = Some (field key defaultOptions_literal)
  ∧ exportedDefault key st = Some x.
Proof.
  intros Hp Hops st. subst st.
  pose proof (wfState_run env ops1 _ (wfState_initial children)) as Hwf1.
  split_and!.
  - by apply wfState_run, wfState_initial.
  - done.
  - rewrite run_app, run_cons.
    apply exportedDefault_kept; [by apply wfState_step|done|].
    rewrite exportedDefault_step by done. simpl. by rewrite Hp.
Qed.

Lemma set_overwrites_defaultOptions_witness :
  current_options
    (run env0 ([OpIsAvailable] ++ OpSet (VNumber 3) (Some (mkPartial None None (Some "?")))
                 :: [OpLoad 0 32 32; OpClear; OpSet (VNumber 4) None])
         (initial page))
  = defaultOptions
  ∧ exportedDefault KIndicator (initial page) = Some (field KIndicator defaultOptions_literal)
  ∧ exportedDefault KIndicator
      (run env0 ([OpIsAvailable] ++ OpSet (VNumber 3) (Some (mkPartial None None (Some "?")))
                   :: [OpLoad 0 32 32; OpClear; OpSet (VNumber 4) None])
           (initial page))
    = Some "?".
Proof.
  apply (set_overwrites_defaultOptions env0 page [OpIsAvailable]
           [OpLoad 0 32 32; OpClear; OpSet (VNumber 4) None]
           (VNumber 3) (mkPartial None None (Some "?")) KIndicator "?").
  - reflexivity.
  - repeat constructor; simpl; tauto.
Defined.

(** * Further properties of the module *)

(** ** Selection: what is returned, and when nothing is *)

Lemma candidate_cases c :
  qualifies c = false
  ∨ (qualifies c = true ∧ sizeAny c)
  ∨ (qualifies c = true ∧ ∃ m, numericSize c = Some m)
  ∨ (qualifies c = true ∧ sizeless c).
Proof.
  destruct (qualifies c); [|by left]. right.
  destruct (decide (sizeAny c)) as [Hany|Hany]; [by left|]. right.
  destruct (numericSize c) as [m|] eqn:Hm; [left; eauto|by right].
Qed.

Lemma loop_Some_stays fs : ∀ b bs, is_Some (getBestFavicon_loop fs (Some b) bs).
Proof.
  induction fs as [|c fs IH]; intros b bs; [by eexists|].
  destruct (candidate_cases c) as [Hq|[[Hq Hany]|[[Hq [m Hm]]|[Hq [Hany Hm]]]]].
  - rewrite loop_skip by done. apply IH.
  - rewrite loop_any by done. by eexists.
  - rewrite (loop_numeric _ _ _ _ m) by done. destruct (Z.gtb m bs); apply IH.
  - rewrite loop_sizeless by done. apply IH.
Qed.

Lemma loop_result_from fs : ∀ best bs b,
  getBestFavicon_loop fs best bs = Some b →
  best = Some b ∨ (b ∈ fs ∧ qualifies b = true).
Proof.
  induction fs as [|c fs IH]; intros best bs b; [by left|].
  assert (∀ bs', getBestFavicon_loop fs (Some c) bs' = Some b →
            qualifies c = true → b ∈ c :: fs ∧ qualifies b = true) as Hadopt.
  { intros bs' [[= <-]|[Hin Hqb]]%IH Hq; split; try done; [left|by right]. }
  assert (getBestFavicon_loop fs best bs = Some b →
            best = Some b ∨ (b ∈ c :: fs ∧ qualifies b = true)) as Hkeep.
  { intros [?|[Hin Hqb]]%IH; [by left|right; split; [by right|done]]. }
  destruct (candidate_cases c) as [Hq|[[Hq Hany]|[[Hq [m Hm]]|[Hq [Hany Hm]]]]].
  - by rewrite loop_skip.
  - rewrite loop_any by done. intros [= <-]. right. split; [left|done].
  - rewrite (loop_numeric _ _ _ _ m) by done.
    destruct (Z.gtb m bs); [right; eauto|done].
  - rewrite loop_sizeless by done. destruct best; [done|right; eauto].
Qed.

(** X1.  What [getBestFavicon] returns is one of the link elements of the
    head, with a non-empty [href] and the token [icon] in its [rel]: never
    an element of another kind, and never one made up. *)
Theorem getBestFavicon_is_icon_link (head : list Node) (b : Node) :
  getBestFavicon head = Some b →
  b ∈ head ∧ tagName b = "link" ∧ hasHref b ∧ hasIconToken b.
Proof.
  unfold getBestFavicon, selectBest.
  intros [[=]|[Hin Hq]]%loop_result_from.
  rewrite getFavicons_filter in Hin. unfold getElementsByTagName in Hin.
  apply list_elem_of_filter in Hin as [_ [Htag Hin]%list_elem_of_filter].
  apply qualifies_iff in Hq as [? ?]. by split_and!.
Qed.

Lemma getBestFavicon_is_icon_link_witness :
  icon32 ∈ [stylesheet; icon16; icon32] ∧ tagName icon32 = "link"
  ∧ hasHref icon32 ∧ hasIconToken icon32.
Proof.
  apply (getBestFavicon_is_icon_link [stylesheet; icon16; icon32] icon32).
  vm_compute. reflexivity.
Defined.

Lemma loop_None_iff fs :
  getBestFavicon_loop fs None 0 = None ↔ sizesAll Z.le 0 fs.
Proof.
  induction fs as [|c fs IH].
  - split; [|done]. intros _ c Hc. by apply elem_of_nil in Hc.
  - assert (∀ bs, getBestFavicon_loop fs (Some c) bs ≠ None) as Hsome.
    { intros bs H. destruct (loop_Some_stays fs c bs) as [? ?]. congruence. }
    destruct (candidate_cases c) as [Hq|[[Hq Hany]|[[Hq [m Hm]]|[Hq [Hany Hm]]]]].
    + rewrite loop_skip, IH by done.
      split; [by apply sizesAll_cons_skip | apply sizesAll_tail].
    + rewrite loop_any by done. split; [done|]. intros H.
      destruct (H c) as (m & Hm & _); [left|done|].
      unfold numericSize in Hm. rewrite Hany in Hm. done.
    + rewrite (loop_numeric _ _ _ _ m) by done.
      destruct (Z.gtb_spec m 0) as [Hgt|Hle].
      * split; [by intros ?%Hsome|]. intros H.
        destruct (H c) as (m' & Hm' & ?); [left|done|].
        rewrite Hm in Hm'. injection Hm' as <-. lia.
      * rewrite IH. split; [by apply (sizesAll_cons _ _ _ _ m) | apply sizesAll_tail].
    + rewrite loop_sizeless by done. split; [by intros ?%Hsome|]. intros H.
      destruct (H c) as (m & Hm' & _); [left|done|]. congruence.
Qed.

(** X2.  [getBestFavicon] returns [null] exactly when every qualifying
    candidate carries a numeric size that is zero or negative: one candidate
    without [sizes], with [sizes="any"], with a size that does not parse or
    with a positive size is enough for an icon to be found. *)
Theorem selectBest_none_iff (fs : list Node) :
  selectBest fs = None ↔ sizesAll Z.le 0 fs.
Proof. apply loop_None_iff. Qed.

Lemma loop_after l2 : ∀ b n,
  Forall (sizeBounded Z.le n) l2 →
  getBestFavicon_loop l2 (Some b) n = Some b.
Proof.
  induction l2 as [|c l2 IH]; intros b n Hall; [done|].
  inversion Hall as [|? ? Hc Hall']; subst.
  destruct (candidate_cases c) as [Hq|[[Hq Hany]|[[Hq [m Hm]]|[Hq [Hany Hm]]]]].
  - rewrite loop_skip by done. by apply IH.
  - by destruct (Hc Hq).
  - rewrite (loop_numeric _ _ _ _ m) by done.
    destruct (Hc Hq) as [_ Hle]. specialize (Hle m Hm).
    destruct (Z.gtb_spec m n); [lia|by apply IH].
  - rewrite loop_sizeless by done. by apply IH.
Qed.

Lemma loop_before n rest l1 : ∀ best bs,
  0 ≤ bs < n →
  Forall (sizeBounded Z.lt n) l1 →
  ∃ best' bs', 0 ≤ bs' < n
    ∧ getBestFavicon_loop (l1 ++ rest) best bs = getBestFavicon_loop rest best' bs'.
Proof.
  induction l1 as [|c l1 IH]; intros best bs Hbs Hall; [by exists best, bs|].
  inversion Hall as [|? ? Hc Hall']; subst. simpl app.
  destruct (candidate_cases c) as [Hq|[[Hq Hany]|[[Hq [m Hm]]|[Hq [Hany Hm]]]]].
  - rewrite loop_skip by done. by apply IH.
  - by destruct (Hc Hq).
  - rewrite (loop_numeric _ _ _ _ m) by done.
    destruct (Hc Hq) as [_ Hlt]. specialize (Hlt m Hm).
    destruct (Z.gtb_spec m bs); apply IH; try done. lia.
  - rewrite loop_sizeless by done. destruct best; apply IH; try done. lia.
Qed.

(** X3.  Sizes rank before everything but [any]: a candidate of positive
    size [n] is returned when no qualifying candidate is [any], those before
    it are smaller and those after it are not larger, whatever candidates
    without a usable size stand before or after it. *)
Theorem selectBest_sized_beats_sizeless (l1 l2 : list Node) (b : Node) (n : Z) :
  qualifies b = true → numericSize b = Some n → 0 < n →
  Forall (sizeBounded Z.lt n) l1 →
  Forall (sizeBounded Z.le n) l2 →
  selectBest (l1 ++ b :: l2) = Some b.
Proof.
  intros Hq Hn Hpos H1 H2. unfold selectBest.
  destruct (loop_before n (b :: l2) l1 None 0) as (best' & bs' & Hbs & ->);
    [lia|done|].
  rewrite (loop_numeric _ _ _ _ n) by done.
  destruct (Z.gtb_spec n bs'); [|lia]. by apply loop_after.
Qed.

Ltac concrete_bounded :=
  repeat (apply Forall_cons; split;
          [ intros _; split;
            [ let H := fresh in intros H; vm_compute in H; discriminate
            | let m := fresh "m" in let H := fresh in
              intros m H; vm_compute in H; revert H; intros [=]; lia ]
          | ]);
  by apply Forall_nil.

Lemma selectBest_sized_beats_sizeless_witness :
  selectBest ([link 7 "x.png" "icon" None; icon16] ++ icon32
                :: [link 8 "y.png" "icon" (Some "big"); icon32])
  = Some icon32.
Proof.
  apply (selectBest_sized_beats_sizeless
           [link 7 "x.png" "icon" None; icon16]
           [link 8 "y.png" "icon" (Some "big"); icon32] icon32 32).
  - vm_compute. reflexivity.
  - vm_compute. reflexivity.
  - lia.
  - concrete_bounded.
  - concrete_bounded.
Defined.

(** X4.  The fallback: when no qualifying candidate is [any] or of positive
    size, the first qualifying candidate without a usable size is returned;
    candidates of size zero or less before it are passed over. *)
Theorem selectBest_first_sizeless (l1 l2 : list Node) (c : Node) :
  qualifies c = true → sizeless c →
  sizesAll Z.le 0 l1 →
  Forall (sizeBounded Z.le 0) l2 →
  selectBest (l1 ++ c :: l2) = Some c.
Proof.
  intros Hq Hc H1 H2. unfold selectBest.
  assert (∀ rest, getBestFavicon_loop (l1 ++ rest) None 0
                  = getBestFavicon_loop rest None 0) as ->.
  { intros rest. induction l1 as [|d l1 IH]; [done|]. simpl app.
    pose proof (sizesAll_tail _ _ _ _ H1) as H1'.
    destruct (qualifies d) eqn:Hqd.
    - destruct (H1 d) as (m & Hm & Hle); [left|done|].
      rewrite (loop_numeric _ _ _ _ m) by done.
      destruct (Z.gtb_spec m 0); [lia|by apply IH].
    - rewrite loop_skip by done. by apply IH. }
  destruct Hc as [Hany Hnum]. rewrite loop_sizeless by done.
  by apply loop_after.
Qed.

Lemma selectBest_first_sizeless_witness :
  selectBest ([stylesheet; icon0] ++ link 7 "x.png" "icon" None
                :: [link 8 "y.png" "icon" (Some "big"); icon0])
  = Some (link 7 "x.png" "icon" None).
Proof.
  apply (selectBest_first_sizeless [stylesheet; icon0]
           [link 8 "y.png" "icon" (Some "big"); icon0]
           (link 7 "x.png" "icon" None)).
  - vm_compute. reflexivity.
  - split; [intros [=]|vm_compute; reflexivity].
  - intros d Hd Hq. repeat (apply elem_of_cons in Hd as [->|Hd]);
      [by vm_compute in Hq| |by apply elem_of_nil in Hd].
    exists 0. split; [vm_compute; reflexivity|lia].
  - concrete_bounded.
Defined.

(** ** The bubble on the canvas *)

Lemma units_cons c r : ∃ u l, JS.units (String c r) = u :: l.
Proof. simpl. unfold JS.surrogates. repeat case_match; simpl; eauto. Qed.

Lemma bubble_inside_length env value options :
  0 < ratio env → finalValue value options ≠ "" →
  Forall (inCanvas env) (pathPoints (drawBubble env value options))
  ↔ (JS.length (finalValue value options) ≤ 2)%nat.
Proof.
  intros Hr Hne. unfold drawBubble.
  destruct (String.eqb_spec (finalValue value options) "") as [|_]; [done|].
  assert (1 ≤ Z.of_nat (JS.length (finalValue value options))) as Hlen.
  { unfold JS.length. destruct (finalValue value options) as [|c r]; [done|].
    destruct (units_cons c r) as (u & l & ->). simpl. lia. }
  cbn [pathPoints mbind list_bind app]. unfold inCanvas, size.
  repeat rewrite Forall_cons. rewrite Forall_nil. cbn [fst snd].
  remember (JS.length (finalValue value options)) as len eqn:Hl. clear Hl.
  split.
  - intros (_ & [[Hleft _] _] & _).
    destruct (decide (len ≤ 2)%nat) as [|Hlong]; [done|].
    assert (ratio env * 2 ≤ ratio env * (Z.of_nat len - 1)) by nia. lia.
  - intros Hshort. assert (len = 1 ∨ len = 2)%nat as [-> | ->] by lia;
      split_and!; try done; lia.
Qed.

Lemma count_text_length n :
  1 ≤ n ≤ 99 → (1 ≤ JS.length (JS.String_of_int n) ≤ 2)%nat.
Proof.
  intros Hn. replace n with (Z.of_nat (Z.to_nat n)) by lia.
  assert (1 ≤ Z.to_nat n < 100)%nat as Hk by lia.
  revert Hk. generalize (Z.to_nat n). intros k Hk.
  do 100 (destruct k as [|k]; [try lia; vm_compute; lia|]). lia.
Qed.

(** X5.  On a display of positive ratio the bubble of a count lies within
    the icon exactly when the count is at most 99: for one or two digits the
    whole path is on the canvas, and for the text ["99+"] its left edge is
    one ratio unit off the canvas. *)
Theorem count_bubble_inside_iff (env : Env) (n : Z) (options : Options) :
  0 < ratio env → 0 < n →
  Forall (inCanvas env) (pathPoints (drawBubble env (VNumber n) options))
  ↔ n ≤ 99.
Proof.
  intros Hr Hn.
  assert (finalValue (VNumber n) options
          = if Z.ltb n 100 then JS.String_of_int n else "99+") as Htext.
  { unfold finalValue, isPositiveNumber.
    destruct (Z.leb_spec 0 n); [|lia]. by destruct (Z.eqb_spec n 0); [lia|]. }
  destruct (Z.ltb_spec n 100) as [Hlt|Hge].
  - pose proof (count_text_length n ltac:(lia)) as Hlen.
    rewrite bubble_inside_length, Htext; [|done|].
    + split; lia.
    + rewrite Htext. intros Hnil. rewrite Hnil in Hlen.
      change (JS.length "") with 0%nat in Hlen. lia.
  - rewrite bubble_inside_length, Htext; [|done|by rewrite Htext].
    change (JS.length "99+") with 3%nat. split; lia.
Qed.

Lemma count_bubble_inside_iff_witness :
  Forall (inCanvas env0) (pathPoints (drawBubble env0 (VNumber 47) defaultOptions_literal))
  ↔ 47 ≤ 99.
Proof.
  apply (count_bubble_inside_iff env0 47 defaultOptions_literal).
  - vm_compute. reflexivity.
  - lia.
Defined.

(** ** What [isAvailable] and [set] leave alone *)

Lemma isAvailable_again env st :
  fst (isAvailable env (snd (isAvailable env st))) = fst (isAvailable env st).
Proof.
  destruct (prepared_frame env st) as (Hh & _).
  assert (∀ st1 : State, is_Some (context st1) → prepared env st1 = st1) as Hkeep.
  { intros st1 [x Hx]. unfold prepared. by rewrite Hx. }
  rewrite (isAvailable_eq env st).
  destruct (context (prepared env st)) as [drawn|] eqn:Hx; simpl.
  - rewrite isAvailable_eq, Hkeep by (simpl; by rewrite Hx).
    simpl. by rewrite Hx, Hh.
  - rewrite isAvailable_eq.
    assert (context (prepared env (prepared env st)) = None) as ->; [|done].
    revert Hx. unfold prepared. destruct (context st) eqn:Hc; simpl; rewrite ?Hc; [done|].
    by destruct (getContext2d env).
Qed.

(** X6.  [isAvailable] changes nothing but the canvas it may create: the
    document and every field of [current] are as before, and asked again it
    gives the same answer. *)
Theorem isAvailable_leaves_session (env : Env) (st : State) :
  doc_head (snd (isAvailable env st)) = doc_head st
  ∧ current_favicons (snd (isAvailable env st)) = current_favicons st
  ∧ current_bestFavicon (snd (isAvailable env st)) = current_bestFavicon st
  ∧ current_value (snd (isAvailable env st)) = current_value st
  ∧ objects (snd (isAvailable env st)) = objects st
  ∧ images (snd (isAvailable env st)) = images st
  ∧ fst (isAvailable env (snd (isAvailable env st))) = fst (isAvailable env st).
Proof.
  destruct (prepared_frame env st) as (Hh & _ & Ho & Hf & Hb & Hv & _ & Hi & _).
  split_and!; [..|apply isAvailable_again];
    rewrite isAvailable_eq; by destruct (context (prepared env st)).
Qed.

(** X7.  [set] itself never touches the document: the head is as before
    and no link element is made for it, whether it returns [true] or
    [false]; and a base icon or a snapshot that is already held is never
    replaced.  (The canvas and the image that [set] may create are not put
    into the document.) *)
Theorem set_leaves_document (env : Env) (value : Value)
    (options : option PartialOptions) (st : State) :
  doc_head (snd (set env value options st)) = doc_head st
  ∧ nextId (snd (set env value options st)) = nextId st
  ∧ (is_Some (current_bestFavicon st) →
     current_bestFavicon (snd (set env value options st)) = current_bestFavicon st)
  ∧ (is_Some (current_favicons st) →
     current_favicons (snd (set env value options st)) = current_favicons st).
Proof.
  rewrite set_eq, isAvailable_eq. cbv zeta.
  unfold startLoad, fillFavicons, fillBest, prepared.
  split_and!; try intros [? Hsome];
    repeat (case_match; simpl in * ); try done; congruence.
Qed.

Lemma set_leaves_document_witness :
  doc_head (snd (set env0 (VNumber 9) None badged)) = doc_head badged
  ∧ nextId (snd (set env0 (VNumber 9) None badged)) = nextId badged
  ∧ current_bestFavicon (snd (set env0 (VNumber 9) None badged))
    = current_bestFavicon badged
  ∧ current_favicons (snd (set env0 (VNumber 9) None badged))
    = current_favicons badged.
Proof.
  destruct (set_leaves_document env0 (VNumber 9) None badged) as (H1 & H2 & H3 & H4).
  split_and!; [done | done | apply H3 | apply H4]; vm_compute; by eexists.
Defined.

(** ** The drawing surface *)










(** ** [clear] again, and renders in a session *)

Lemma clear_frame env st :
  current_favicons st = None ∨ fst (isAvailable env st) = false →
  doc_head (snd (clear env st)) = doc_head st
  ∧ current_favicons (snd (clear env st)) = current_favicons st
  ∧ current_bestFavicon (snd (clear env st)) = current_bestFavicon st
  ∧ current_value (snd (clear env st)) = current_value st
  ∧ objects (snd (clear env st)) = objects st
  ∧ images (snd (clear env st)) = images st.
Proof.
  intros Hwhy. rewrite clear_eq. cbv zeta.
  assert (doc_head (snd (isAvailable env st)) = doc_head st
          ∧ current_favicons (snd (isAvailable env st)) = current_favicons st
          ∧ current_bestFavicon (snd (isAvailable env st)) = current_bestFavicon st
          ∧ current_value (snd (isAvailable env st)) = current_value st
          ∧ objects (snd (isAvailable env st)) = objects st
          ∧ images (snd (isAvailable env st)) = images st) as Hframe.
  { destruct (prepared_frame env st) as (Hh & _ & Ho & Hf & Hb & Hv & _ & Hi & _).
    rewrite isAvailable_eq. by destruct (context (prepared env st)). }
  destruct (fst (isAvailable env st)) eqn:Hgate; [|done].
  destruct Hwhy as [Hnone|?]; [|done].
  destruct Hframe as (? & Hf' & ? & ? & ? & ?). rewrite Hf', Hnone.
  rewrite Hnone in Hf'. by split_and!.
Qed.

(** X10.  [clear] twice is [clear] once: whatever the first call did, the
    second leaves the document and [current] as the first left them. *)
Theorem clear_twice (env : Env) (st : State) :
  let st1 := snd (clear env st) in
  let st2 := snd (clear env st1) in
  doc_head st2 = doc_head st1
  ∧ current_favicons st2 = current_favicons st1
  ∧ current_bestFavicon st2 = current_bestFavicon st1
  ∧ current_value st2 = current_value st1
  ∧ objects st2 = objects st1
  ∧ images st2 = images st1.
Proof.
  intros st1 st2. apply clear_frame. subst st1. rewrite clear_eq. cbv zeta.
  destruct (fst (isAvailable env st)) eqn:Hgate.
  - destruct (current_favicons (snd (isAvailable env st))) eqn:Hf; by left.
  - right. simpl. by rewrite isAvailable_again.
Qed.

(** X11.  Throughout a session every render is drawn over the base icon
    chosen by the first successful [set], also once the head holds only the
    badge: the image that a later successful [set] starts loads the [href]
    property of that base, its resolved URL, with the value just set, and
    asks for anonymous cross-origin access unless that URL begins with
    [data]. *)
Theorem session_draws_over_base (env : Env) (st0 : State)
    (value0 value : Value) (options0 options : option PartialOptions)
    (ops : list Op) :
  fst (set env value0 options0 st0) = true →
  Forall (λ op, op ≠ OpClear) ops →
  let st1 := snd (set env value0 options0 st0) in
  let st := run env ops st1 in
  fst (set env value options st) = true →
  ∃ b, current_bestFavicon st1 = Some b
       ∧ images (snd (set env value options st))
         = images st
           ++ [mkImage value (current_options st)
                 (href env b)
                 (if String.prefix "data" (href env b)
                  then None else Some "anonymous")].
Proof.
  intros Hset Hops st1 st.
  destruct (set_true_inSession _ _ _ _ Hset) as (b & fs & Hs1). fold st1 in Hs1.
  pose proof (run_inSession env ops st1 b fs Hops Hs1) as Hs. fold st in Hs.
  rewrite (set_cached _ _ _ _ b fs Hs). cbv zeta.
  destruct (bool_decide _); [|done]. intros _.
  exists b. split; [by destruct Hs1|].
  simpl. unfold startLoad. simpl. destruct Hs as [-> _ _]. done.
Qed.

Lemma session_draws_over_base_witness :
  ∃ b, current_bestFavicon (snd (set env0 (VNumber 5) None (initial page))) = Some b
       ∧ images (snd (set env0 (VNumber 6) None
                        (run env0 [OpLoad 0 32 32]
                           (snd (set env0 (VNumber 5) None (initial page))))))
         = images (run env0 [OpLoad 0 32 32]
                     (snd (set env0 (VNumber 5) None (initial page))))
           ++ [mkImage (VNumber 6)
                 (current_options (run env0 [OpLoad 0 32 32]
                                     (snd (set env0 (VNumber 5) None (initial page)))))
                 (href env0 b)
                 (if String.prefix "data" (href env0 b)
                  then None else Some "anonymous")].
Proof.
  apply (session_draws_over_base env0 (initial page) (VNumber 5) (VNumber 6) None None
           [OpLoad 0 32 32]).
  - vm_compute. reflexivity.
  - repeat constructor; discriminate.
  - vm_compute. reflexivity.
Defined.

(** X12.  The options reach the handler by reference: what a completed
    load draws is decided by the options object as it is when the image
    loads, with every merge made since the [set] that started the render,
    not by what it held at that [set]. *)
Theorem render_reads_options_at_load (env : Env) (children : list Node)
    (ops : list Op) (k : nat) (width height : Z) (image : Image)
    (drawn : list CanvasOp) :
  let st := run env ops (initial children) in
  images st !! k = Some image →
  context st = Some drawn →
  ∃ options,
    objects st !! current_options st = Some options
    ∧ context (step env (OpLoad k width height) st)
      = Some (painted env image width height drawn options).
Proof.
  intros st Himg Hx.
  destruct (wfState_run env ops _ (wfState_initial children)) as [H1 H2 H3 H4].
  fold st in H1, H2, H3, H4.
  destruct (H2 image) as [_ Hopt]; [by eapply list_elem_of_lookup_2|].
  destruct H4 as [o Ho]. exists o. rewrite H3. split; [done|].
  destruct (H1 ltac:(by eexists)) as [c Hc].
  rewrite step_eq, Himg, image_onload_eq. simpl.
  rewrite Hc, Hx, Hopt, Ho. cbv zeta. by destruct (String.eqb _ _).
Qed.

Lemma render_reads_options_at_load_witness :
  ∃ options,
    objects (run env0 [OpSet (VBoolean true) None;
                       OpSet (VNumber 2) (Some (mkPartial None None (Some "?")))]
                 (initial page))
    !! current_options (run env0 [OpSet (VBoolean true) None;
                                  OpSet (VNumber 2) (Some (mkPartial None None (Some "?")))]
                            (initial page))
    = Some options
    ∧ context (step env0 (OpLoad 0 32 32)
                 (run env0 [OpSet (VBoolean true) None;
                            OpSet (VNumber 2) (Some (mkPartial None None (Some "?")))]
                      (initial page)))
      = Some (painted env0 (mkImage (VBoolean true) defaultOptions "https://badgin.example/a.png"
                                (Some "anonymous"))
                32 32 [] options).
Proof.
  apply (render_reads_options_at_load env0 page
           [OpSet (VBoolean true) None;
            OpSet (VNumber 2) (Some (mkPartial None None (Some "?")))]
           0 32 32 (mkImage (VBoolean true) defaultOptions "https://badgin.example/a.png"
                                (Some "anonymous")) []).
  - vm_compute. reflexivity.
  - vm_compute. reflexivity.
Defined.

Example render_reads_options_at_load_example :
  textsDrawn
    (default []
       (context (run env0 [OpSet (VBoolean true) None;
                           OpSet (VNumber 2) (Some (mkPartial None None (Some "?")));
                           OpLoad 0 32 32]
                     (initial page))))
  = ["?"].
Proof. vm_compute. reflexivity. Qed.

(** ** From [set] to [clear] and back *)

Lemma nid_inj_on (h : list Node) m f :
  NoDup (nid <$> h) → m ∈ h → f ∈ h → nid m = nid f → m = f.
Proof.
  intros Hnd [i Hi]%list_elem_of_lookup [j Hj]%list_elem_of_lookup Heq.
  assert (i = j) as ->; [|congruence].
  apply (proj1 (NoDup_alt (nid <$> h)) Hnd i j (nid m));
    rewrite list_lookup_fmap; [by rewrite Hi | by rewrite Hj, Heq].
Qed.

Lemma filter_iff_on (P1 P2 : Node → Prop)
    `{!∀ x, Decision (P1 x), !∀ x, Decision (P2 x)} (l : list Node) :
  (∀ x, x ∈ l → P1 x ↔ P2 x) → filter P1 l = filter P2 l.
Proof.
  induction l as [|a l IH]; intros Hiff; [done|].
  rewrite !filter_cons, IH by (intros x Hx; apply Hiff; by right).
  destruct (Hiff a ltac:(left)). by repeat case_decide; try tauto.
Qed.

Lemma filter_all_on (P : Node → Prop) `{!∀ x, Decision (P x)} (l : list Node) :
  (∀ x, x ∈ l → P x) → filter P l = l.
Proof.
  induction l as [|a l IH]; intros Hall; [done|].
  rewrite filter_cons_True by (apply Hall; left).
  by rewrite IH by (intros x Hx; apply Hall; by right).
Qed.

Lemma removeAll_icons h :
  NoDup (nid <$> h) →
  removeAll (getFavicons h) h = filter (λ m, ¬ isIconLink m) h.
Proof.
  intros Hnd. rewrite removeAll_filter. apply filter_iff_on. intros m Hm.
  rewrite getFavicons_isIconLink. split.
  - intros Hid Hicon. apply Hid, list_elem_of_fmap. exists m.
    split; [done|]. by apply list_elem_of_filter.
  - intros Hicon (f & Heq & [Hf Hin]%list_elem_of_filter)%list_elem_of_fmap.
    by rewrite (nid_inj_on h m f Hnd Hm Hin Heq) in Hicon.
Qed.

Lemma restored_head fs st :
  NoDup (nid <$> doc_head st) → NoDup (nid <$> fs) →
  (∀ m f, m ∈ doc_head st → ¬ isIconLink m → f ∈ fs → nid m ≠ nid f) →
  doc_head (restored fs st) = filter (λ m, ¬ isIconLink m) (doc_head st) ++ fs.
Proof.
  intros Hnd Hfs Hdisj. simpl.
  rewrite appendAll_filter, removeAll_icons by done. f_equal.
  apply filter_all_on. intros m [Hicon Hm]%list_elem_of_filter.
  intros (f & Heq & Hf)%list_elem_of_fmap. by apply (Hdisj m f).
Qed.

Lemma clear_restores_head env fs st :
  docState st → current_favicons st = Some fs →
  is_Some (context st) → is_Some (getBestFavicon (doc_head st)) →
  (∀ m f, m ∈ doc_head st → ¬ isIconLink m → f ∈ fs → nid m ≠ nid f) →
  doc_head (snd (clear env st)) = filter (λ m, ¬ isIconLink m) (doc_head st) ++ fs
  ∧ current_favicons (snd (clear env st)) = None
  ∧ current_bestFavicon (snd (clear env st)) = None
  ∧ images (snd (clear env st)) = images st.
Proof.
  intros [Hnd _ Hsnap] Hfs [drawn Hx] Hbest Hdisj.
  destruct (Hsnap fs Hfs) as (Hndfs & _).
  rewrite clear_eq, isAvailable_eq. cbv zeta. unfold prepared. rewrite Hx, Hx.
  rewrite bool_decide_eq_true_2 by done. simpl. rewrite Hfs.
  split_and!; try done. by apply (restored_head fs (scanned st)).
Qed.

Lemma set_opens_session env value options st :
  fst (set env value options st) = true →
  current_favicons st = None →
  let st1 := snd (set env value options st) in
  doc_head st1 = doc_head st ∧ nextId st1 = nextId st
  ∧ current_favicons st1 = Some (getFavicons (doc_head st))
  ∧ is_Some (context st1)
  ∧ is_Some (getBestFavicon (doc_head st)).
Proof.
  intros Hset Hnone st1.
  destruct (set_document env value options st) as (Hh & Hn & Hf).
  destruct (set_true_inSession _ _ _ _ Hset) as (b & fs & [_ Hfs Hx]).
  fold st1 in Hh, Hn, Hf, Hfs, Hx. split_and!; try done.
  - destruct Hf as [Hf|Hf]; [congruence|done].
  - revert Hset. rewrite set_eq. cbv zeta.
    destruct (fst (isAvailable env (recorded value options st))) eqn:Hgate; [|done].
    intros _. by apply isAvailable_true in Hgate as [_ ?].
Qed.

Lemma icons_apart h m f :
  NoDup (nid <$> h) → m ∈ h → ¬ isIconLink m → f ∈ getFavicons h → nid m ≠ nid f.
Proof.
  intros Hnd Hm Hicon Hf Heq. rewrite getFavicons_isIconLink in Hf.
  apply list_elem_of_filter in Hf as [Hficon Hf].
  by rewrite (nid_inj_on h m f Hnd Hm Hf Heq) in Hicon.
Qed.

(** The head once a badge is installed over a head of distinct elements:
    the elements that are not icon links, then the badge. *)
Lemma installed_head url st :
  url ≠ "" → docState st →
  filter (λ m, ¬ isIconLink m) (doc_head (installed url st))
  = filter (λ m, ¬ isIconLink m) (doc_head st).
Proof.
  intros Hurl [Hnd Hlt _]. simpl. unfold appendChild, removeChild.
  rewrite removeAll_icons, filter_app by done.
  rewrite (filter_cons_False _ (newFavicon _ _))
    by (intros H; apply H; by apply newFavicon_isIconLink).
  rewrite filter_nil, app_nil_r, !list_filter_filter.
  apply filter_iff_on. intros m Hm. split; [tauto|]. intros Hicon.
  split_and!; try done. apply Hlt in Hm. simpl. lia.
Qed.

(** X13.  Round trip.  From a page of distinct elements, in a state
    without a snapshot, a successful [set] followed by [clear] restores the
    icon links of the head exactly and forgets the session, whether or not
    a render completed in between.  The other elements of the head keep
    their order; the icon links come back after them, at the end of the
    head, not at their former places. *)
Theorem set_clear_round_trip (env : Env) (children : list Node) (ops : list Op)
    (value : Value) (options : option PartialOptions) (k : nat) (width height : Z) :
  NoDup (nid <$> children) →
  let st := run env ops (initial children) in
  current_favicons st = None →
  fst (set env value options st) = true →
  let st1 := snd (set env value options st) in
  let restoredHead :=
    filter (λ m, ¬ isIconLink m) (doc_head st) ++ getFavicons (doc_head st) in
  (doc_head (snd (clear env st1)) = restoredHead
   ∧ current_favicons (snd (clear env st1)) = None
   ∧ current_bestFavicon (snd (clear env st1)) = None)
  ∧ (doc_head (snd (clear env (step env (OpLoad k width height) st1))) = restoredHead
     ∧ current_favicons (snd (clear env (step env (OpLoad k width height) st1))) = None
     ∧ current_bestFavicon (snd (clear env (step env (OpLoad k width height) st1))) = None).
Proof.
  intros Hnd st Hnone Hset st1 restoredHead.
  pose proof (docState_run env ops _ (docState_initial _ Hnd)) as Hdoc. fold st in Hdoc.
  pose proof (wfState_run env ops _ (wfState_initial children)) as Hwf. fold st in Hwf.
  destruct (set_opens_session env value options st Hset Hnone)
    as (Hh & Hn & Hfs & Hx & Hbest). fold st1 in Hh, Hn, Hfs, Hx.
  pose proof (docState_set env value options st Hdoc) as Hdoc1. fold st1 in Hdoc1.
  pose proof (wfState_set env value options st Hwf) as Hwf1. fold st1 in Hwf1.
  assert (∀ s : State,
            docState s → current_favicons s = current_favicons st1 →
            is_Some (context s) → is_Some (getBestFavicon (doc_head s)) →
            filter (λ m, ¬ isIconLink m) (doc_head s)
            = filter (λ m, ¬ isIconLink m) (doc_head st) →
            doc_head (snd (clear env s)) = restoredHead
            ∧ current_favicons (snd (clear env s)) = None
            ∧ current_bestFavicon (snd (clear env s)) = None) as Hclear.
  { intros s Hs Hf Hxs Hbs Hrest. rewrite Hfs in Hf.
    destruct (clear_restores_head env _ s Hs Hf Hxs Hbs) as (-> & ? & ? & _).
    - intros m f Hm Hicon Hf'.
      assert (m ∈ doc_head st) as Hm'.
      { assert (m ∈ filter (λ m, ¬ isIconLink m) (doc_head s)) as Hin
          by by apply list_elem_of_filter.
        rewrite Hrest in Hin. by apply list_elem_of_filter in Hin as [_ ?]. }
      destruct Hdoc as [Hnd' _ _]. by apply (icons_apart (doc_head st)).
    - by rewrite Hrest. }
  split.
  - apply Hclear; [done|done|done|by rewrite Hh|by rewrite Hh].
  - rewrite step_eq. destruct (images st1 !! k) as [image|] eqn:Himg;
      [|apply Hclear; [done|done|done|by rewrite Hh|by rewrite Hh]].
    rewrite image_onload_eq. simpl.
    destruct (canvas st1) as [c|];
      [|apply Hclear; [by revert Hdoc1; apply docState_frame|done|done
                       |by simpl; rewrite Hh|by simpl; rewrite Hh]].
    destruct Hx as [drawn Hx]. rewrite Hx.
    destruct (objects st1 !! img_options image) as [o|];
      [|apply Hclear; [by revert Hdoc1; apply docState_frame|done|by simpl; rewrite Hx
                       |by simpl; rewrite Hh|by simpl; rewrite Hh]].
    cbv zeta.
    destruct (String.eqb_spec (toDataURL env (painted env image width height drawn o)) "")
      as [_|Hurl].
    + apply Hclear; [by revert Hdoc1; apply docState_frame|done|done
                     |by simpl; rewrite Hh|by simpl; rewrite Hh].
    + apply Hclear.
      * apply docState_installed. revert Hdoc1. by apply docState_frame.
      * done.
      * done.
      * by rewrite getBestFavicon_installed.
      * rewrite installed_head; [by simpl; rewrite Hh|done|].
        revert Hdoc1. by apply docState_frame.
Qed.

Lemma set_clear_round_trip_witness :
  (doc_head (snd (clear env0 (snd (set env0 (VNumber 5) None (initial mixedPage)))))
   = [stylesheet; icon32; icon16]
   ∧ current_favicons (snd (clear env0 (snd (set env0 (VNumber 5) None (initial mixedPage)))))
     = None
   ∧ current_bestFavicon (snd (clear env0 (snd (set env0 (VNumber 5) None (initial mixedPage)))))
     = None)
  ∧ (doc_head (snd (clear env0 (step env0 (OpLoad 0 32 32)
                                  (snd (set env0 (VNumber 5) None (initial mixedPage))))))
     = [stylesheet; icon32; icon16]
     ∧ current_favicons (snd (clear env0 (step env0 (OpLoad 0 32 32)
                                            (snd (set env0 (VNumber 5) None (initial mixedPage))))))
       = None
     ∧ current_bestFavicon (snd (clear env0 (step env0 (OpLoad 0 32 32)
                                               (snd (set env0 (VNumber 5) None (initial mixedPage))))))
       = None).
Proof.
  assert (NoDup (nid <$> mixedPage)) as Hnd by by_evaluation.
  pose proof (set_clear_round_trip env0 mixedPage [] (VNumber 5) None 0 32 32 Hnd) as H.
  cbv zeta in H. specialize (H eq_refl).
  assert (fst (set env0 (VNumber 5) None (run env0 [] (initial mixedPage))) = true) as Hset
    by (vm_compute; reflexivity).
  specialize (H Hset). vm_compute in H. vm_compute. exact H.
Defined.

(** ** A render that outlives its session *)

Lemma onload_keeps_snapshot env image width height st :
  current_favicons (snd (image_onload env image width height st)) = current_favicons st.
Proof. rewrite image_onload_eq. simpl. by repeat (case_match; simpl). Qed.

(** X14.  [clear] does not cancel a render that is under way.  After a
    successful [set] and a [clear], the image is still loading; when it
    completes, the restored icon links are removed again and the badge is
    the one icon link of the head, and since no snapshot is held any more a
    further [clear] leaves the head as it is: the original icons are not
    brought back. *)
Theorem clear_does_not_cancel_render (env : Env) (children : list Node)
    (ops : list Op) (value : Value) (options : option PartialOptions)
    (k : nat) (width height : Z) :
  (∀ drawn, toDataURL env drawn ≠ "") →
  let st := run env ops (initial children) in
  fst (set env value options st) = true →
  let st1 := snd (set env value options st) in
  let st2 := snd (clear env st1) in
  let st3 := step env (OpLoad k width height) st2 in
  (k < length (images st2))%nat →
  images st2 = images st1
  ∧ current_favicons st2 = None
  ∧ (∃ url, getFavicons (doc_head st3) = [newFavicon (nextId st2) url])
  ∧ current_favicons st3 = None
  ∧ doc_head (snd (clear env st3)) = doc_head st3.
Proof.
  intros Hurl st Hset st1 st2 st3 Hk.
  pose proof (wfState_run env ops _ (wfState_initial children)) as Hwf. fold st in Hwf.
  pose proof (wfState_set env value options st Hwf) as Hwf1. fold st1 in Hwf1.
  pose proof (wfState_clear env st1 Hwf1) as Hwf2. fold st2 in Hwf2.
  destruct (set_true_inSession _ _ _ _ Hset) as (b & fs & [_ Hfs [drawn Hx]]).
  fold st1 in Hfs, Hx.
  destruct (set_document env value options st) as (Hh & _). fold st1 in Hh.
  assert (is_Some (getBestFavicon (doc_head st1))) as Hbest.
  { rewrite Hh. revert Hset. rewrite set_eq. cbv zeta.
    destruct (fst (isAvailable env (recorded value options st))) eqn:Hgate; [|done].
    intros _. by apply isAvailable_true in Hgate as [_ ?]. }
  assert (images st2 = images st1 ∧ current_favicons st2 = None) as [Hi2 Hf2].
  { subst st2. rewrite clear_eq, isAvailable_eq. cbv zeta. unfold prepared.
    rewrite Hx, Hx. rewrite bool_decide_eq_true_2 by done. simpl. by rewrite Hfs. }
  assert (current_favicons st3 = None) as Hf3.
  { subst st3. rewrite step_eq. destruct (images st2 !! k); [|done].
    by rewrite onload_keeps_snapshot. }
  split_and!; try done.
  - subst st3. rewrite step_eq.
    destruct (lookup_lt_is_Some_2 _ _ Hk) as [img Himg]. rewrite Himg.
    destruct Hwf2 as [H1 H2 H3 H4].
    destruct (H2 img) as [Hx2 Himgo]; [by eapply list_elem_of_lookup_2|].
    destruct (onload_single_icon env img width height (with_images (delete k) st2))
      as [url Hsingle]; simpl; [done|by apply H1|done|by rewrite Himgo|].
    by exists url.
  - apply clear_frame. by left.
Qed.

Lemma clear_does_not_cancel_render_witness :
  images (snd (clear env0 (snd (set env0 (VNumber 5) None (run env0 [] (initial page))))))
  = images (snd (set env0 (VNumber 5) None (run env0 [] (initial page))))
  ∧ current_favicons
      (snd (clear env0 (snd (set env0 (VNumber 5) None (run env0 [] (initial page))))))
    = None
  ∧ (∃ url,
       getFavicons
         (doc_head
            (step env0 (OpLoad 0 32 32)
               (snd (clear env0 (snd (set env0 (VNumber 5) None (run env0 [] (initial page))))))))
       = [newFavicon
            (nextId (snd (clear env0 (snd (set env0 (VNumber 5) None
                                             (run env0 [] (initial page)))))))
            url])
  ∧ current_favicons
      (step env0 (OpLoad 0 32 32)
         (snd (clear env0 (snd (set env0 (VNumber 5) None (run env0 [] (initial page)))))))
    = None
  ∧ doc_head
      (snd (clear env0
              (step env0 (OpLoad 0 32 32)
                 (snd (clear env0 (snd (set env0 (VNumber 5) None
                                          (run env0 [] (initial page)))))))))
    = doc_head
        (step env0 (OpLoad 0 32 32)
           (snd (clear env0 (snd (set env0 (VNumber 5) None (run env0 [] (initial page))))))).
Proof.
  apply (clear_does_not_cancel_render env0 page [] (VNumber 5) None 0 32 32).
  - intros drawn. simpl. discriminate.
  - vm_compute. reflexivity.
  - vm_compute. lia.
Defined.

(** ** Sizes written in decimal *)

Lemma of_uint_acc_digitsValue d : ∀ p,
  Z.pos (Pos.of_uint_acc d p) = digitsValue d (Z.pos p).
Proof. induction d; intros p; simpl; rewrite ?IHd; try done; f_equal; lia. Qed.

Lemma of_uint_digitsValue d : Z.of_N (Pos.of_uint d) = digitsValue d 0.
Proof.
  induction d; simpl; try done; rewrite of_uint_acc_digitsValue; f_equal.
Qed.

Lemma units_ascii c r :
  (N_of_ascii c < 128)%N → JS.units (String c r) = N_of_ascii c :: JS.units r.
Proof. intros H%N.ltb_lt. simpl. by rewrite H. Qed.

Lemma parseDigits_cons u l acc d :
  JS.digitValue u = Some d →
  JS.parseDigits (u :: l) acc = JS.parseDigits l (Some (10 * default 0 acc + d)).
Proof. simpl. by intros ->. Qed.

Lemma parseInt10_unsigned s u l :
  JS.units s = u :: l → is_Some (JS.digitValue u) →
  JS.parseInt10 s = JS.toNumber <$> JS.parseDigits (u :: l) None.
Proof.
  intros Hs [d Hd]. unfold JS.parseInt10. rewrite Hs.
  unfold JS.digitValue in Hd.
  destruct (48 <=? u)%N eqn:H1; [|done]. destruct (u <=? 57)%N eqn:H2; [|done].
  apply N.leb_le in H1, H2.
  assert (JS.isWhiteSpace u = false) as Hw.
  { unfold JS.isWhiteSpace.
    repeat match goal with
           | |- context [(?a <=? ?b)%N] => destruct (N.leb_spec a b); try lia
           | |- context [(?a =? ?b)%N] => destruct (N.eqb_spec a b); try lia
           end; done. }
  cbn [JS.trimStart]. rewrite Hw.
  destruct (N.eqb_spec u 45); [lia|]. destruct (N.eqb_spec u 43); [lia|]. done.
Qed.

(** The first code unit of a numeral that is not empty is a digit. *)
Lemma units_numeral d :
  d ≠ Decimal.Nil →
  ∃ u k d', JS.units (NilEmpty.string_of_uint d) = u :: JS.units (NilEmpty.string_of_uint d')
            ∧ JS.digitValue u = Some k
            ∧ ∀ a, digitsValue d a = digitsValue d' (10 * a + k).
Proof.
  intros Hd.
  destruct d as [|d|d|d|d|d|d|d|d|d|d]; [done|..]; simpl NilEmpty.string_of_uint;
    rewrite units_ascii by done;
    [exists 48%N, 0|exists 49%N, 1|exists 50%N, 2|exists 51%N, 3|exists 52%N, 4
    |exists 53%N, 5|exists 54%N, 6|exists 55%N, 7|exists 56%N, 8|exists 57%N, 9];
    exists d; split_and!; try done; intros a; simpl; f_equal; lia.
Qed.

Lemma parseDigits_digits d : ∀ a,
  JS.parseDigits (JS.units (NilEmpty.string_of_uint d)) (Some a)
  = Some (digitsValue d a).
Proof.
  induction d; intros a; [done|..];
    (simpl NilEmpty.string_of_uint; rewrite units_ascii by done;
     erewrite parseDigits_cons by (vm_compute; reflexivity);
     rewrite IHd; simpl; repeat f_equal; lia).
Qed.

Lemma parseDigits_numeral d :
  d ≠ Decimal.Nil →
  JS.parseDigits (JS.units (NilEmpty.string_of_uint d)) None
  = Some (digitsValue d 0).
Proof.
  intros (u & k & d' & -> & Hk & ->)%units_numeral.
  rewrite (parseDigits_cons _ _ _ k Hk), parseDigits_digits. simpl.
  repeat f_equal; lia.
Qed.

Lemma parseInt10_numeral d :
  d ≠ Decimal.Nil →
  JS.parseInt10 (NilEmpty.string_of_uint d) = Some (JS.toNumber (digitsValue d 0)).
Proof.
  intros Hd. destruct (units_numeral d Hd) as (u & k & d' & Hu & Hk & _).
  rewrite (parseInt10_unsigned _ u _ Hu) by by eexists.
  by rewrite <- Hu, parseDigits_numeral.
Qed.

Lemma parseInt10_String_of_int w :
  JS.parseInt10 (JS.String_of_int w) = Some (JS.toNumber w).
Proof.
  unfold JS.String_of_int. destruct w as [|p|p]; simpl.
  - done.
  - pose proof (DecimalPos.Unsigned.to_uint_nonnil p) as Hnil.
    pose proof (DecimalPos.Unsigned.of_to p) as Hval.
    apply (f_equal Z.of_N) in Hval. rewrite of_uint_digitsValue in Hval.
    unfold NilZero.string_of_uint.
    pose proof (parseInt10_numeral (Pos.to_uint p) Hnil) as Hparse.
    destruct (Pos.to_uint p); [done|..]; by rewrite Hparse, Hval.
  - pose proof (DecimalPos.Unsigned.to_uint_nonnil p) as Hnil.
    pose proof (DecimalPos.Unsigned.of_to p) as Hval.
    apply (f_equal Z.of_N) in Hval. rewrite of_uint_digitsValue in Hval.
    unfold JS.parseInt10. rewrite units_ascii by done.
    cbn [JS.trimStart]. change (JS.isWhiteSpace (N_of_ascii "-")) with false.
    replace (N_of_ascii "-" =? 45)%N with true by reflexivity.
    replace (NilZero.string_of_uint (Pos.to_uint p))
      with (NilEmpty.string_of_uint (Pos.to_uint p))
      by (unfold NilZero.string_of_uint; by destruct (Pos.to_uint p)).
    rewrite (parseDigits_numeral _ Hnil). simpl. by rewrite Hval.
Qed.

Lemma toNumber_safe w : - 2 ^ 53 ≤ w ≤ 2 ^ 53 → JS.toNumber w = w.
Proof.
  intros Hw. unfold JS.toNumber.
  destruct (Z.ltb_spec (Z.abs w) (2 ^ 53)) as [|Hge]; [done|].
  assert (w = 2 ^ 53 ∨ w = - 2 ^ 53) as [-> | ->] by lia; by vm_compute.
Qed.

Lemma first_split_prefix sep s t :
  noChar sep s = true →
  JS.first (JS.split sep (String.append s (String sep t))) = s.
Proof.
  induction s as [|c s IH]; simpl.
  - by rewrite Ascii.eqb_refl.
  - intros [Hc Hs]%andb_true_iff. apply negb_true_iff in Hc. rewrite Hc.
    specialize (IH Hs). destruct (JS.split sep _); simpl in *; by rewrite IH.
Qed.

Lemma noChar_digits d : noChar "x" (NilEmpty.string_of_uint d) = true.
Proof. induction d; simpl; done. Qed.

Lemma noChar_String_of_int w : noChar "x" (JS.String_of_int w) = true.
Proof.
  unfold JS.String_of_int.
  destruct w as [|p|p]; simpl; [done|..]; unfold NilZero.string_of_uint;
    destruct (Pos.to_uint p) eqn:Hd; try done; rewrite <- Hd; apply noChar_digits.
Qed.

(** X15.  A size descriptor written [WxH], with [W] the decimal numeral of
    an integer, is ranked by the double nearest to that integer, whatever
    follows the [x]; up to [2 ^ 53] in magnitude that double is the integer
    itself, and the parse of line 79 undoes the decimal notation. *)
Theorem numericSize_decimal (n : Node) (w : Z) (rest : string) :
  getAttribute "sizes" n = Some (String.append (JS.String_of_int w) (String "x" rest)) →
  numericSize n = Some (JS.toNumber w)
  ∧ (- 2 ^ 53 ≤ w ≤ 2 ^ 53 → numericSize n = Some w).
Proof.
  intros Hsizes.
  assert (numericSize n = Some (JS.toNumber w)) as Hn.
  { unfold numericSize. rewrite Hsizes.
    rewrite first_split_prefix by apply noChar_String_of_int.
    rewrite parseInt10_String_of_int.
    assert (∃ c s', JS.String_of_int w = String c s' ∧ c ≠ "a"%char)
      as (c & s' & -> & Hc).
    { unfold JS.String_of_int. destruct w as [|p|p]; simpl; [by eexists _, _|..].
      - pose proof (DecimalPos.Unsigned.to_uint_nonnil p).
        unfold NilZero.string_of_uint. destruct (Pos.to_uint p); [done|..];
          by eexists _, _.
      - by eexists _, _. }
    simpl. destruct (Ascii.eqb_spec c "a"); done. }
  split; [done|]. intros Hw. by rewrite Hn, toNumber_safe.
Qed.

Lemma numericSize_decimal_witness :
  numericSize (link 9 "z.png" "icon" (Some "192x192")) = Some (JS.toNumber 192)
  ∧ (- 2 ^ 53 ≤ 192 ≤ 2 ^ 53 →
     numericSize (link 9 "z.png" "icon" (Some "192x192")) = Some 192).
Proof.
  apply (numericSize_decimal (link 9 "z.png" "icon" (Some "192x192")) 192 "192").
  vm_compute. reflexivity.
Defined.

(** Beyond [2 ^ 53] the parse rounds: an odd integer just above it is ranked
    as its even neighbour, and a numeral of 310 digits as [Infinity]. *)
Example numericSize_rounds :
  numericSize (link 9 "z.png" "icon" (Some "9007199254740993x1"))
  = Some 9007199254740992
  ∧ JS.toNumber (10 ^ 309) = 2 ^ 1024.
Proof. split; vm_compute; reflexivity. Qed.

(** ** When the module is available *)

Lemma usable_or_not fs : sizesAll Z.le 0 fs ∨ ∃ c, c ∈ fs ∧ usable c.
Proof.
  induction fs as [|c fs [IH|(d & Hd & Hu)]].
  - left. intros c Hc. by apply elem_of_nil in Hc.
  - destruct (candidate_cases c) as [Hq|[[Hq Hany]|[[Hq [m Hm]]|[Hq [Hany Hm]]]]].
    + left. by apply sizesAll_cons_skip.
    + right. exists c. split; [left|]. split; [done|]. intros m Hm.
      unfold numericSize in Hm. rewrite Hany in Hm. done.
    + destruct (Z.le_gt_cases m 0).
      * left. by apply (sizesAll_cons _ _ _ _ m).
      * right. exists c. split; [left|]. split; [done|]. intros m'. rewrite Hm.
        intros [= <-]. lia.
    + right. exists c. split; [left|]. split; [done|]. intros m. by rewrite Hm.
  - right. exists d. split; [by right|done].
Qed.

Lemma selectBest_some_iff fs :
  is_Some (selectBest fs) ↔ ∃ c, c ∈ fs ∧ usable c.
Proof.
  split.
  - intros [b Hb]. destruct (usable_or_not fs) as [Hall|?]; [|done].
    apply loop_None_iff in Hall. unfold selectBest in Hb. congruence.
  - intros (c & Hc & Hq & Hpos).
    destruct (selectBest fs) eqn:Hbest; [by eexists|].
    apply loop_None_iff in Hbest. destruct (Hbest c Hc Hq) as (m & Hm & Hle).
    specialize (Hpos m Hm). lia.
Qed.

(** X16.  [set] returns what [isAvailable()] answers in the state before
    the call, and that answer is [true] exactly when a 2D context exists or
    can be made and some icon link of the head is usable: one that is
    [any], or has no size that parses, or has a positive size. *)
Theorem set_succeeds_iff (env : Env) (value : Value)
    (options : option PartialOptions) (st : State) :
  fst (set env value options st) = fst (isAvailable env st)
  ∧ (fst (isAvailable env st) = true
     ↔ (is_Some (context st) ∨ getContext2d env = true)
       ∧ ∃ c, c ∈ doc_head st ∧ tagName c = "link" ∧ usable c).
Proof.
  split.
  - rewrite set_eq. cbv zeta. rewrite isAvailable_recorded.
    by destruct (fst (isAvailable env st)).
  - assert (is_Some (getBestFavicon (doc_head st))
            ↔ ∃ c, c ∈ doc_head st ∧ tagName c = "link" ∧ usable c) as Hbest.
    { unfold getBestFavicon. rewrite selectBest_some_iff. split.
      - intros (c & Hc & Hu). exists c. rewrite getFavicons_isIconLink in Hc.
        apply list_elem_of_filter in Hc as [[Htag _] Hc]. by split_and!.
      - intros (c & Hc & Htag & Hu). exists c. split; [|done].
        rewrite getFavicons_isIconLink. apply list_elem_of_filter.
        split; [|done]. split; [done|by destruct Hu]. }
    rewrite <- Hbest, isAvailable_eq. unfold prepared.
    destruct (context st) as [drawn|] eqn:Hx; simpl; rewrite ?Hx; simpl.
    + rewrite bool_decide_eq_true. split; [intros ?; split; [left; by eexists|done]|tauto].
    + destruct (getContext2d env); simpl.
      * rewrite bool_decide_eq_true. split; [intros ?; split; [by right|done]|tauto].
      * split; [done|]. intros [[[? ?]|?] _]; done.
Qed.
